(** * dowhy.gcm.stochastic_models

  A shallow embedding of [dowhy/gcm/stochastic_models.py]: the three
  stochastic models ([ScipyDistribution], [EmpiricalDistribution],
  [BayesianGaussianMixtureDistribution]), the search for a suitable
  continuous family, the naming of fitted parameters and the choice of the
  number of mixture components.

  Python objects are records, mutation of [self] is explicit state passing,
  exceptions are a [result] type, and every call into scipy, numpy or
  sklearn goes through an external collaborator that reads and updates an
  abstract world (the random generators) and is recorded in a call log. *)

From Stdlib Require Import List String Ascii Bool ZArith Lia.
From Stdlib Require Import SpecFloat.
Import ListNotations.

Local Open Scope string_scope.
Local Open Scope list_scope.
Local Open Scope Z_scope.

Set Implicit Arguments.

(** ** Python floats

  A Python [float] (and a numpy [float64]) is an IEEE 754 binary64 value:
  [spec_float] with precision 53 and maximal exponent 1024. *)

Module PyFloat.

Definition float : Type := spec_float.

Definition prec : Z := 53.
Definition emax : Z := 1024.

(** [np.inf] *)
Definition inf : float := S754_infinity false.
(** The literals [0], [0.0] and [1.0]. *)
Definition zero : float := S754_zero false.
Definition one : float := S754_finite false 4503599627370496 (-52).

(** [a < b]; [a > b] is [lt b a].  Any comparison with NaN is false. *)
Definition lt (a b : float) : bool := SFltb a b.
Definition gt (a b : float) : bool := lt b a.

Definition is_nan (a : float) : bool :=
  match a with S754_nan => true | _ => false end.

(** Conversion of a Python [int] to [float] (round to nearest even). *)
Definition of_int (z : Z) : float := binary_normalize prec emax z 0 false.

(** [a / b] on two Python ints, for [b <> 0]. *)
Definition int_truediv (a b : Z) : float := SFdiv prec emax (of_int a) (of_int b).

(** [np.sqrt] *)
Definition sqrt (a : float) : float := SFsqrt prec emax a.

(** A total order on the floats that are not NaN, as an integer triple
    compared lexicographically; it mirrors [SFcompare]. *)
Definition key (a : float) : Z * Z * Z :=
  match a with
  | S754_nan => (0, 0, 0)
  | S754_infinity true => (-2, 0, 0)
  | S754_infinity false => (2, 0, 0)
  | S754_zero _ => (0, 0, 0)
  | S754_finite false m e => (1, e, Zpos m)
  | S754_finite true m e => (-1, - e, Zneg m)
  end.

Definition key_lt (x y : Z * Z * Z) : Prop :=
  let '(a1, b1, c1) := x in
  let '(a2, b2, c2) := y in
  a1 < a2 \/ (a1 = a2 /\ (b1 < b2 \/ (b1 = b2 /\ c1 < c2))).

End PyFloat.

Import PyFloat.

(** ** Python strings: [str.split(',')] and [str.strip()] *)

Module PyStr.

(** [str.isspace] on the ASCII range: tab, line feed, vertical tab, form
    feed, carriage return, the four separators 28 to 31, and space. *)
Definition isspace (c : ascii) : bool :=
  let n := nat_of_ascii c in
  ((9 <=? n) && (n <=? 13) || (28 <=? n) && (n <=? 32))%nat.

(** [s.split(sep)] for a one-character separator: one piece more than
    there are separators, empty pieces kept. *)
Fixpoint split (sep : ascii) (s : string) : list string :=
  match s with
  | EmptyString => [EmptyString]
  | String c r =>
      if Ascii.eqb c sep then EmptyString :: split sep r
      else match split sep r with
           | h :: t => String c h :: t
           | [] => [String c EmptyString]
           end
  end.

Fixpoint lstrip (s : string) : string :=
  match s with
  | String c r => if isspace c then lstrip r else s
  | EmptyString => EmptyString
  end.

Fixpoint rstrip (s : string) : string :=
  match s with
  | EmptyString => EmptyString
  | String c r =>
      match rstrip r with
      | EmptyString => if isspace c then EmptyString else String c EmptyString
      | r' => String c r'
      end
  end.

(** [s.strip()] *)
Definition strip (s : string) : string := rstrip (lstrip s).

End PyStr.

(** ** Python dicts

  A [dict] keeps its keys in insertion order; assigning to a key that is
  present replaces the value and keeps the position. *)

Module PyDict.

Definition dict (V : Type) : Type := list (string * V).

Fixpoint set {V} (k : string) (v : V) (d : dict V) : dict V :=
  match d with
  | [] => [(k, v)]
  | (k', v') :: r =>
      if String.eqb k k' then (k, v) :: r else (k', v') :: set k v r
  end.

(** [k in d] *)
Definition contains {V} (k : string) (d : dict V) : bool :=
  existsb (fun kv => String.eqb k (fst kv)) d.

Definition keys {V} (d : dict V) : list string := map fst d.
Definition values {V} (d : dict V) : list V := map snd d.

(** [d.get(k)] *)
Fixpoint get {V} (k : string) (d : dict V) : option V :=
  match d with
  | [] => None
  | (k', v) :: r => if String.eqb k k' then Some v else get k r
  end.

(** [{key(x): x for x in xs}] *)
Definition comprehension {V} (key : V -> string) (xs : list V) : dict V :=
  fold_left (fun d x => set (key x) x d) xs [].

End PyDict.

Import PyDict.

(** ** Exceptions and results *)

Inductive exn : Type :=
  | ValueError (msg : string)
  | RuntimeError (msg : string)
  | IndexError (msg : string)
  | OverflowError (msg : string)
  | OtherError (cls msg : string).

Inductive result (A : Type) : Type :=
  | Ok (a : A)
  | Raise (e : exn).

Arguments Ok {A} a.
Arguments Raise {A} e.

(** [int(x)] on a float: the integer part, truncated towards zero;
    infinities and NaN are refused. *)
Definition py_int (x : float) : result Z :=
  match x with
  | S754_nan => Raise (ValueError "cannot convert float NaN to integer")
  | S754_infinity _ => Raise (OverflowError "cannot convert float infinity to integer")
  | S754_zero _ => Ok 0
  | S754_finite s m e =>
      let q := Z.shiftl (Zpos m) e in
      Ok (if s then - q else q)
  end.

(** [range(a, b)] *)
Definition py_range (a b : Z) : list Z :=
  map (fun i => a + Z.of_nat i) (seq 0 (Z.to_nat (b - a))).

(** Tuple indexing [t[i]] with Python's negative indices, and the slice
    [t[:-2]]. *)
Definition tuple_get {A} (t : list A) (i : Z) : result A :=
  let n := Z.of_nat (List.length t) in
  let j := if i <? 0 then n + i else i in
  if (j <? 0) || (n <=? j) then Raise (IndexError "tuple index out of range")
  else match nth_error t (Z.to_nat j) with
       | Some a => Ok a
       | None => Raise (IndexError "tuple index out of range")
       end.

Definition tuple_drop_last2 {A} (t : list A) : list A :=
  firstn (List.length t - 2) t.

(** ** External calls, the world and the monad

    The module calls into scipy, numpy and sklearn.  These collaborators are
    not part of the module: they are parameters of the model.  Each of them
    reads and updates the [world] (the state of the random generators), may
    raise, and is entered in the log [calls] when it is called. *)

Inductive call : Type :=
  | call_fit (family : string)
  | call_rvs (family : string)
  | call_estimate_kl_divergence_continuous
  | call_KMeans_fit (n_clusters : Z)
  | call_silhouette_score
  | call_BayesianGaussianMixture_fit (n_components max_iter : Z)
  | call_gmm_sample
  | call_random_choice.

Record Env (World : Type) : Type := mkEnv {
  world : World;
  calls : list call
  }.

Definition M (World A : Type) : Type := Env World -> result A * Env World.

Definition ret {W A} (a : A) : M W A := fun e => (Ok a, e).

Definition raise {W A} (x : exn) : M W A := fun e => (Raise x, e).

Definition bind {W A B} (m : M W A) (k : A -> M W B) : M W B :=
  fun e => match m e with
           | (Ok a, e') => k a e'
           | (Raise x, e') => (Raise x, e')
           end.

Definition lift {W A} (r : result A) : M W A := fun e => (r, e).

(** [try: m except ValueError: h] *)
Definition try_except_ValueError {W A} (m h : M W A) : M W A :=
  fun e => match m e with
           | (Raise (ValueError _), e') => h e'
           | re => re
           end.

Definition external {W A} (c : call) (f : W -> result A * W) : M W A :=
  fun e => let (r, w) := f (world e) in
           (r, {| world := w; calls := calls e ++ [c] |}).

Declare Scope py_scope.
Delimit Scope py_scope with py.
Notation "x <- m ;; k" := (bind m (fun x => k))
  (at level 61, m at next level, right associativity) : py_scope.
Notation "' p <- m ;; k" := (bind m (fun p => k))
  (at level 61, p pattern, m at next level, right associativity) : py_scope.
Local Open Scope py_scope.

(** A [for] loop whose body may [continue] to the next item, [break], or
    raise.  The loop variables [s] survive an exception: a handler around the
    loop sees the values they had when the failing iteration started (the
    loops of this module assign them only at the end of an iteration). *)

Inductive control (S : Type) : Type :=
  | Continue (s : S)
  | Break (s : S).

Arguments Continue {S} s.
Arguments Break {S} s.

Inductive completion : Type :=
  | Exhausted
  | Broke
  | Raised (x : exn).

Fixpoint for_loop {W I S} (body : I -> S -> M W (control S))
    (items : list I) (s : S) (e : Env W) : (S * completion) * Env W :=
  match items with
  | [] => ((s, Exhausted), e)
  | i :: rest =>
      match body i s e with
      | (Ok (Continue s'), e') => for_loop body rest s' e'
      | (Ok (Break s'), e') => ((s', Broke), e')
      | (Raise x, e') => ((s, Raised x), e')
      end
  end.

(** A loop outside any handler: an exception leaves the function. *)
Definition for_each {W I S} (body : I -> S -> M W (control S))
    (items : list I) (s : S) : M W S :=
  fun e => match for_loop body items s e with
           | ((_, Raised x), e') => (Raise x, e')
           | ((s', _), e') => (Ok s', e')
           end.

(** [[f(x) for x in xs]] *)
Fixpoint for_list {W I A} (f : I -> M W A) (xs : list I) : M W (list A) :=
  match xs with
  | [] => ret []
  | x :: r => a <- f x ;; l <- for_list f r ;; ret (a :: l)
  end.

(** ** The collaborators *)

Inductive rv_class : Type := rv_continuous | rv_discrete.

Definition rv_class_eqb (a b : rv_class) : bool :=
  match a, b with
  | rv_continuous, rv_continuous | rv_discrete, rv_discrete => true
  | _, _ => false
  end.

(** A scipy distribution object: its [name], its [shapes] string (the
    comma-separated shape-parameter names, or [None]), its class, and the
    methods [fit(data)] and [rvs] with its positional arguments, its [size]
    and its keyword arguments. *)
Record rv (World ndarray : Type) : Type := mk_rv {
  name : string;
  shapes : option string;
  kind : rv_class;
  fit : ndarray -> World -> result (list float) * World;
  rvs : list float -> Z -> dict float -> World -> result ndarray * World
}.

(** An attribute of the module [scipy.stats]. *)
Inductive pyobj (World ndarray : Type) : Type :=
| py_rv (d : rv World ndarray)
| py_other.

Arguments py_other {World ndarray}.

(** What the module imports.  The state of the random generators, numpy
    arrays, cluster labels, index arrays and fitted sklearn mixtures are
    opaque.  [scipy_stats] is [dir(scipy.stats)] with [getattr]: attribute
    names and objects in the order of [dir]; [norm], [laplace], [t], [uniform]
    and [rayleigh] are the five families the module names.  Then come
    [dowhy.gcm.util.general.shape_into_2d], [X.shape[0]],
    [dowhy.gcm.divergence.estimate_kl_divergence_continuous], sklearn's
    [KMeans(n_clusters=k).fit(X).labels_], [silhouette_score] and
    [BayesianGaussianMixture(n_components, max_iter).fit(X)], the mixture's
    [sample], numpy's [random.choice] and the row selection [data[idx, :]]. *)
Class Collaborators : Type := {
  World : Type;
  ndarray : Type;
  Labels : Type;
  Index : Type;
  GMM : Type;
  scipy_stats : list (string * pyobj World ndarray);
  norm : rv World ndarray;
  laplace : rv World ndarray;
  t : rv World ndarray;
  uniform : rv World ndarray;
  rayleigh : rv World ndarray;
  shape_into_2d : ndarray -> result ndarray;
  shape0 : ndarray -> nat;
  estimate_kl_divergence_continuous :
    ndarray -> ndarray -> World -> result float * World;
  KMeans_fit : Z -> ndarray -> World -> result Labels * World;
  silhouette_score : ndarray -> Labels -> Z -> World -> result float * World;
  BayesianGaussianMixture_fit : Z -> Z -> ndarray -> World -> result GMM * World;
  gmm_sample : GMM -> Z -> World -> result (ndarray * Labels) * World;
  random_choice : nat -> Z -> World -> result Index * World;
  take_rows : ndarray -> Index -> result ndarray
}.

Abbreviation family := (rv World ndarray).
Abbreviation Py := (M World).

Section StochasticModels.

Context {C : Collaborators}.

(** *** The catalogs (lines 20-35) *)

Definition isinstance (o : pyobj World ndarray) (c : rv_class) : bool :=
  match o with
  | py_rv d => rv_class_eqb (kind d) c
  | py_other => false
  end.

(** [d in l] for a string [d] and a list [l] of distribution objects: a
    string is never equal to a distribution object. *)
Definition str_in_rv_list (d : string) (l : list family) : bool :=
  existsb (fun _ => false) l.

Definition rv_attributes (keep : string -> pyobj World ndarray -> bool)
  : list family :=
  flat_map (fun a => match snd a with
                     | py_rv x => if keep (fst a) (snd a) then [x] else []
                     | py_other => []
                     end) scipy_stats.

Definition continuous_seed : list family := [norm; laplace; t; uniform; rayleigh].

Definition continuous_list : list family :=
  continuous_seed ++
  rv_attributes (fun d o => isinstance o rv_continuous
                            && negb (str_in_rv_list d continuous_seed)).

Definition discrete_list : list family :=
  rv_attributes (fun d o => isinstance o rv_discrete).

Definition _CONTINUOUS_DISTRIBUTIONS : dict family :=
  comprehension (@name _ _) continuous_list.

Definition _DISCRETE_DISTRIBUTIONS : dict family :=
  comprehension (@name _ _) discrete_list.

(** *** Calls into the collaborators *)

Definition rv_fit (d : family) (X : ndarray) : Py (list float) :=
  external (call_fit (name d)) (fit d X).

Definition rv_rvs (d : family) (args : list float) (size : Z)
    (kwargs : dict float) : Py ndarray :=
  external (call_rvs (name d)) (rvs d args size kwargs).

Definition kl_divergence (X Y : ndarray) : Py float :=
  external call_estimate_kl_divergence_continuous
           (estimate_kl_divergence_continuous X Y).

(** *** ScipyDistribution.map_scipy_distribution_parameters_to_names
        (lines 131-150) *)

(** [[name.strip() for name in shapes.split(',')]], or the empty list when
    [shapes] is [None] or empty. *)
Definition shape_names (d : family) : list string :=
  match shapes d with
  | None | Some EmptyString => []
  | Some s => map PyStr.strip (PyStr.split "," s)
  end.

(** The loop of lines 147-148, from index [i] on. *)
Fixpoint name_parameters (i : nat) (parameter_list : list string)
    (parameters : list float) (parameters_dictionary : dict float)
  : result (dict float) :=
  match parameter_list with
  | [] => Ok parameters_dictionary
  | parameter_name :: rest =>
      match nth_error parameters i with
      | None => Raise (IndexError "tuple index out of range")
      | Some v =>
          name_parameters (S i) rest parameters
                          (PyDict.set parameter_name v parameters_dictionary)
      end
  end.

Definition map_scipy_distribution_parameters_to_names
    (scipy_distribution : family) (parameters : list float)
  : result (dict float) :=
  let parameter_list := shape_names scipy_distribution in
  if contains (name scipy_distribution) _DISCRETE_DISTRIBUTIONS then
    name_parameters 0 (parameter_list ++ ["loc"]) parameters []
  else if contains (name scipy_distribution) _CONTINUOUS_DISTRIBUTIONS then
    name_parameters 0 (parameter_list ++ ["loc"; "scale"]) parameters []
  else
    Raise (ValueError ("Distribution " ++ name scipy_distribution
      ++ " not found in the list of continuous and discrete distributions!")).

(** *** ScipyDistribution.find_suitable_continuous_distribution
        (lines 79-129) *)

Record search : Type := mk_search {
  currently_best_distribution : family;
  currently_best_parameters : list float;
  currently_smallest_divergence : float
}.

(** Lines 96-115: fit the family ([None] when the fit raises a [ValueError],
    the [continue] of line 101), draw as many samples as there are rows, and
    estimate the divergence. *)
Definition evaluate_family (distribution_samples : ndarray) (distribution : family)
  : Py (option (list float * float)) :=
  fitted <- try_except_ValueError
              (params <- rv_fit distribution distribution_samples ;;
               ret (Some params))
              (ret None) ;;
  match fitted with
  | None => ret None
  | Some params =>
      let arg := tuple_drop_last2 params in
      loc <- lift (tuple_get params (-2)) ;;
      scale <- lift (tuple_get params (-1)) ;;
      generated_samples <-
        rv_rvs distribution arg (Z.of_nat (shape0 distribution_samples))
               [("loc", loc); ("scale", scale)] ;;
      divergence <- kl_divergence distribution_samples generated_samples ;;
      ret (Some (params, divergence))
  end.

(** The body of the loop of lines 91-125. *)
Definition search_body (distribution_samples : ndarray)
    (divergence_threshold : float) (distribution : family) (s : search)
  : Py (control search) :=
  r <- evaluate_family distribution_samples distribution ;;
  match r with
  | None => ret (Continue s)
  | Some (params, divergence) =>
      if lt divergence divergence_threshold then
        ret (Break (mk_search distribution params
                              (currently_smallest_divergence s)))
      else if gt (currently_smallest_divergence s) divergence then
        ret (Continue (mk_search distribution params divergence))
      else
        ret (Continue s)
  end.

Definition search_init : search := mk_search norm [zero; one] inf.

Definition find_suitable_continuous_distribution
    (distribution_samples : ndarray) (divergence_threshold : float)
  : Py (family * dict float) :=
  distribution_samples <- lift (shape_into_2d distribution_samples) ;;
  s <- for_each (search_body distribution_samples divergence_threshold)
                (values _CONTINUOUS_DISTRIBUTIONS) search_init ;;
  named <- lift (map_scipy_distribution_parameters_to_names
                   (currently_best_distribution s)
                   (currently_best_parameters s)) ;;
  ret (currently_best_distribution s, named).

(** The default [divergence_threshold], [10 ** -2]: the double nearest to
    one hundredth. *)
Definition default_divergence_threshold : float :=
  S754_finite false 5764607523034235 (-59).

(** *** ScipyDistribution (lines 38-77) *)

Record ScipyDistribution : Type := mk_ScipyDistribution {
  distribution : option family;
  parameters : dict float;
  fixed_parameters : bool
}.

Definition ScipyDistribution_init (scipy_distribution : option family)
    (parameters : dict float) : ScipyDistribution :=
  mk_ScipyDistribution scipy_distribution parameters
                       (0 <? List.length parameters)%nat.

Definition ScipyDistribution_not_fitted : exn :=
  ValueError "Cannot draw samples. Model has not been fit!".

Definition ScipyDistribution_draw_samples (self : ScipyDistribution)
    (num_samples : Z) : Py ndarray :=
  if (List.length (parameters self) =? 0)%nat then
    raise ScipyDistribution_not_fitted
  else
    match distribution self with
    | None => raise ScipyDistribution_not_fitted
    | Some d =>
        samples <- rv_rvs d [] num_samples (parameters self) ;;
        lift (shape_into_2d samples)
    end.

Definition ScipyDistribution_fit (self : ScipyDistribution) (X : ndarray)
  : Py ScipyDistribution :=
  match distribution self with
  | None =>
      ' (best_model, best_parameters) <-
        find_suitable_continuous_distribution X default_divergence_threshold ;;
      ret (mk_ScipyDistribution (Some best_model) best_parameters
                                (fixed_parameters self))
  | Some d =>
      if negb (fixed_parameters self) then
        X2 <- lift (shape_into_2d X) ;;
        fitted <- rv_fit d X2 ;;
        named <- lift (map_scipy_distribution_parameters_to_names d fitted) ;;
        ret (mk_ScipyDistribution (Some d) named (fixed_parameters self))
      else
        ret self
  end.

Definition ScipyDistribution_clone (self : ScipyDistribution) : ScipyDistribution :=
  if fixed_parameters self then
    ScipyDistribution_init (distribution self) (parameters self)
  else
    ScipyDistribution_init (distribution self) [].

(** *** EmpiricalDistribution (lines 153-173) *)

Record EmpiricalDistribution : Type := mk_EmpiricalDistribution {
  data : option ndarray
}.

Definition EmpiricalDistribution_init : EmpiricalDistribution :=
  mk_EmpiricalDistribution None.

Definition EmpiricalDistribution_not_fitted : exn :=
  RuntimeError "EmpiricalDistribution has not been fitted!".

Definition EmpiricalDistribution_fit (self : EmpiricalDistribution) (X : ndarray)
  : Py EmpiricalDistribution :=
  X2 <- lift (shape_into_2d X) ;;
  ret (mk_EmpiricalDistribution (Some X2)).

Definition EmpiricalDistribution_draw_samples (self : EmpiricalDistribution)
    (num_samples : Z) : Py ndarray :=
  match data self with
  | None => raise EmpiricalDistribution_not_fitted
  | Some rows =>
      idx <- external call_random_choice
                      (random_choice (shape0 rows) num_samples) ;;
      lift (take_rows rows idx)
  end.

Definition EmpiricalDistribution_clone (self : EmpiricalDistribution)
  : EmpiricalDistribution :=
  EmpiricalDistribution_init.

(** *** BayesianGaussianMixtureDistribution (lines 176-224) *)

Record selection : Type := mk_selection {
  current_best : float;
  current_best_num_components : Z;
  num_best_in_succession : Z
}.

(** Lines 194-195: cluster into [i] clusters and score the clustering. *)
Definition score_candidate (X : ndarray) (i : Z) : Py float :=
  labels <- external (call_KMeans_fit i) (KMeans_fit i X) ;;
  external call_silhouette_score (silhouette_score X labels 5000).

(** Lines 197-202: the best score and its count, and the length of the
    current run of candidates that did not improve on it. *)
Definition record_score (i : Z) (coefficient : float) (s : selection) : selection :=
  if gt coefficient (current_best s) then
    mk_selection coefficient i 0
  else
    mk_selection (current_best s) (current_best_num_components s)
                 (num_best_in_succession s + 1).

(** The body of the loop of lines 193-205. *)
Definition selection_body (X : ndarray) (i : Z) (s : selection)
  : Py (control selection) :=
  coefficient <- score_candidate X i ;;
  let s' := record_score i coefficient s in
  if 3 <=? num_best_in_succession s' then ret (Break s') else ret (Continue s').

Definition selection_init : selection := mk_selection zero 1 0.

(** The upper end of the candidate range, [int(np.sqrt(X.shape[0] / 2))]. *)
Definition candidate_bound (X : ndarray) : result Z :=
  py_int (sqrt (int_truediv (Z.of_nat (shape0 X)) 2)).

(** The [try] block of lines 192-205, with the loop variables it leaves. *)
Definition selection_try (X : ndarray) (e : Env World)
  : (selection * completion) * Env World :=
  match candidate_bound X with
  | Raise x => ((selection_init, Raised x), e)
  | Ok bound => for_loop (selection_body X) (py_range 2 bound) selection_init e
  end.

Definition get_optimal_number_of_components (X : ndarray) : Py Z :=
  fun e =>
    let '((s, c), e') := selection_try X e in
    match c with
    | Raised (ValueError _) => (Ok (current_best_num_components s), e')
    | Raised x => (Raise x, e')
    | Exhausted | Broke => (Ok (current_best_num_components s), e')
    end.

Record BayesianGaussianMixtureDistribution : Type :=
  mk_BayesianGaussianMixtureDistribution {
    gmm_model : option GMM
  }.

Definition BayesianGaussianMixtureDistribution_init
  : BayesianGaussianMixtureDistribution :=
  mk_BayesianGaussianMixtureDistribution None.

Definition BayesianGaussianMixtureDistribution_not_fitted : exn :=
  RuntimeError "BayesianGaussianMixtureDistribution has not been fitted!".

Definition BayesianGaussianMixtureDistribution_fit
    (self : BayesianGaussianMixtureDistribution) (X : ndarray)
  : Py BayesianGaussianMixtureDistribution :=
  X2 <- lift (shape_into_2d X) ;;
  n_components <- get_optimal_number_of_components X2 ;;
  fitted <- external (call_BayesianGaussianMixture_fit n_components 1000)
                     (BayesianGaussianMixture_fit n_components 1000 X2) ;;
  ret (mk_BayesianGaussianMixtureDistribution (Some fitted)).

Definition BayesianGaussianMixtureDistribution_draw_samples
    (self : BayesianGaussianMixtureDistribution) (num_samples : Z) : Py ndarray :=
  match gmm_model self with
  | None => raise BayesianGaussianMixtureDistribution_not_fitted
  | Some g =>
      sampled <- external call_gmm_sample (gmm_sample g num_samples) ;;
      lift (shape_into_2d (fst sampled))
  end.

Definition BayesianGaussianMixtureDistribution_clone
    (self : BayesianGaussianMixtureDistribution)
  : BayesianGaussianMixtureDistribution :=
  BayesianGaussianMixtureDistribution_init.

(** *** The evaluations a search performs

    The families of a list that could be fitted, each with its fitted
    parameters and its estimated divergence, as the loop of
    [find_suitable_continuous_distribution] obtains them one after the other
    with [evaluate_family]. *)
Fixpoint evaluations (distribution_samples : ndarray) (families : list family)
  : Py (list (family * list float * float)) :=
  match families with
  | [] => ret []
  | d :: rest =>
      r <- evaluate_family distribution_samples d ;;
      others <- evaluations distribution_samples rest ;;
      ret (match r with
           | Some (params, divergence) => (d, params, divergence) :: others
           | None => others
           end)
  end.

(** What the search keeps of one evaluation when no divergence is below the
    threshold (lines 122-125). *)
Definition keep_smaller (s : search) (ev : family * list float * float) : search :=
  let '(d, params, divergence) := ev in
  if gt (currently_smallest_divergence s) divergence then
    mk_search d params divergence
  else s.

(** What the function returns for a family and its raw parameters
    (lines 127-129). *)
Definition named_result (d : family) (params : list float)
  : result (family * dict float) :=
  match map_scipy_distribution_parameters_to_names d params with
  | Ok named => Ok (d, named)
  | Raise x => Raise x
  end.

(** *** The scores a selection records

    The loop variables after the candidates of [scored] were scored, in
    order (lines 197-202, without the early exit). *)
Definition record_all (s : selection) (scored : list (Z * float)) : selection :=
  fold_left (fun s ic => record_score (fst ic) (snd ic) s) scored s.

(** The loop variables [s] hold the best of the scored candidates: either no
    score is above zero and the count is still 1, or the count is a scored
    candidate, its score is above zero and no score is above it. *)
Definition holds_best (s : selection) (scored : list (Z * float)) : Prop :=
  (current_best_num_components s = 1
   /\ current_best s = zero
   /\ forall i c, In (i, c) scored -> lt zero c = false)
  \/ (In (current_best_num_components s, current_best s) scored
      /\ lt zero (current_best s) = true
      /\ forall i c, In (i, c) scored -> lt (current_best s) c = false).

End StochasticModels.

(** ** Concrete collaborators

    Small deterministic stand-ins for scipy, numpy and sklearn, on which the
    module can be run.  The world counts the random draws; an array is a list
    of rows; a family's samples all carry the family's tag, by which the
    divergence estimator looks up the divergence it reports; cluster labels
    are the number of clusters, by which the scorer looks up its score. *)

Module Scenario.

Definition array : Type := list (list Z).

Definition rows (n : nat) : array := repeat [0] n.

Definition lookup {A} (default : A) (table : list (Z * A)) (k : Z) : A :=
  match find (fun kv => Z.eqb (fst kv) k) table with
  | Some kv => snd kv
  | None => default
  end.

Definition tag_of (Y : array) : Z :=
  match Y with
  | (x :: _) :: _ => x
  | _ => 0
  end.

Definition stub (nm : string) (sh : option string) (k : rv_class)
    (fitted : result (list float)) (tag : Z) : rv nat array :=
  {| name := nm; shapes := sh; kind := k;
     fit := fun _ w => (fitted, w);
     rvs := fun _ size _ w => (Ok (repeat [tag] (Z.to_nat size)), S w) |}.

Definition two : float := of_int 2.
Definition three : float := of_int 3.
Definition five : float := of_int 5.
Definition half : float := int_truediv 1 2.
Definition quarter : float := int_truediv 1 4.
Definition three_eighths : float := int_truediv 3 8.
Definition three_quarters : float := int_truediv 3 4.
Definition one_256th : float := int_truediv 1 256.
Definition minus_half : float := SFopp half.

Definition incompatible : result (list float) :=
  Raise (ValueError "The data contains non-finite values.").

Definition norm_stub := stub "norm" None rv_continuous (Ok [five; two]) 1.
Definition laplace_stub := stub "laplace" None rv_continuous (Ok [three; two]) 2.
Definition t_stub := stub "t" (Some "df") rv_continuous (Ok [three; five; two]) 3.
Definition uniform_stub := stub "uniform" None rv_continuous incompatible 4.
Definition rayleigh_stub := stub "rayleigh" None rv_continuous (Ok [zero; two]) 5.
Definition beta_stub :=
  stub "beta" (Some "a, b") rv_continuous (Ok [two; three; zero; one]) 6.
Definition poisson_stub := stub "poisson" (Some "mu") rv_discrete (Ok [three; zero]) 7.

Definition norm_failing := stub "norm" None rv_continuous incompatible 1.
Definition t_failing := stub "t" (Some "df") rv_continuous incompatible 3.
Definition rayleigh_failing := stub "rayleigh" None rv_continuous incompatible 5.

Definition stats : list (string * pyobj nat array) :=
  [("beta", py_rv beta_stub); ("norm", py_rv norm_stub);
   ("pearsonr", py_other); ("poisson", py_rv poisson_stub);
   ("t", py_rv t_stub)].

Definition collaborators (n l s u r : rv nat array)
    (attributes : list (string * pyobj nat array))
    (divergences scores : list (Z * result float)) : Collaborators :=
  {| World := nat; ndarray := array; Labels := Z; Index := list nat; GMM := Z;
     scipy_stats := attributes;
     norm := n; laplace := l; t := s; uniform := u; rayleigh := r;
     shape_into_2d := fun X => Ok X;
     shape0 := fun X => List.length X;
     estimate_kl_divergence_continuous :=
       fun _ Y w => (lookup (Ok inf) divergences (tag_of Y), w);
     KMeans_fit := fun k _ w => (Ok k, S w);
     silhouette_score := fun _ labels _ w => (lookup (Ok zero) scores labels, S w);
     BayesianGaussianMixture_fit := fun k _ _ w => (Ok k, S w);
     gmm_sample := fun g size w => (Ok (repeat [g] (Z.to_nat size), 0), S w);
     random_choice := fun _ size w => (Ok (repeat 0%nat (Z.to_nat size)), S w);
     take_rows := fun X idx => Ok (map (fun i => nth i X []) idx) |}.

(** The second family is acceptable (its divergence is below one hundredth),
    the first is not. *)
Definition acceptable : Collaborators :=
  collaborators norm_stub laplace_stub t_stub uniform_stub rayleigh_stub stats
    [(1, Ok half); (2, Ok one_256th); (3, Ok quarter); (5, Ok quarter);
     (6, Ok quarter)]
    [].

(** No family is acceptable; the second has the smallest divergence. *)
Definition none_acceptable : Collaborators :=
  collaborators norm_stub laplace_stub t_stub uniform_stub rayleigh_stub stats
    [(1, Ok half); (2, Ok quarter); (3, Ok three_quarters);
     (5, Ok three_eighths); (6, Ok one)]
    [].

(** Only the second family can be fitted, and its divergence is infinite. *)
Definition infinite_divergence : Collaborators :=
  collaborators norm_failing laplace_stub t_failing uniform_stub rayleigh_failing
    [("poisson", py_rv poisson_stub)]
    [(2, Ok inf)]
    [].

(** Three candidate counts, the second scoring best. *)
Definition clusters : Collaborators :=
  collaborators norm_stub laplace_stub t_stub uniform_stub rayleigh_stub stats []
    [(2, Ok quarter); (3, Ok half); (4, Ok three_eighths)].

(** The only candidate count scores below zero. *)
Definition poor_clusters : Collaborators :=
  collaborators norm_stub laplace_stub t_stub uniform_stub rayleigh_stub stats []
    [(2, Ok minus_half)].

(** Scoring the second candidate count fails. *)
Definition collapsing_clusters : Collaborators :=
  collaborators norm_stub laplace_stub t_stub uniform_stub rayleigh_stub stats []
    [(2, Ok quarter);
     (3, Raise (ValueError "Number of labels is 1. Valid values are 2 to n_samples - 1 (inclusive)"))].

(** The first divergence is NaN; the second, third and last are equal and
    the smallest. *)
Definition tied : Collaborators :=
  collaborators norm_stub laplace_stub t_stub uniform_stub rayleigh_stub stats
    [(1, Ok S754_nan); (2, Ok quarter); (3, Ok quarter); (5, Ok half);
     (6, Ok quarter)]
    [].

(** Estimating the divergence of the second family fails. *)
Definition failing_estimate : Collaborators :=
  collaborators norm_stub laplace_stub t_stub uniform_stub rayleigh_stub stats
    [(1, Ok half);
     (2, Raise (ValueError "Expected n_neighbors <= n_samples_fit"))]
    [].

(** Five candidate counts: the first scores best and the next three do not
    improve on it. *)
Definition plateau : Collaborators :=
  collaborators norm_stub laplace_stub t_stub uniform_stub rayleigh_stub stats []
    [(2, Ok half); (3, Ok quarter); (4, Ok three_eighths); (5, Ok quarter);
     (6, Ok three_quarters)].

(** Scoring the second candidate count fails with an error that is no
    [ValueError]. *)
Definition crashing_clusters : Collaborators :=
  collaborators norm_stub laplace_stub t_stub uniform_stub rayleigh_stub stats []
    [(2, Ok quarter); (3, Raise (OtherError "MemoryError" ""))].

Definition start : Env nat := {| world := 0%nat; calls := [] |}.

Definition fixed_parameters_model (c : Collaborators)
  : @ScipyDistribution c :=
  ScipyDistribution_init (Some (@norm c)) [("loc", five); ("scale", two)].

End Scenario.

(** ** The order on floats *)

Lemma lt_key (a b : float) :
  lt a b = true <->
  is_nan a = false /\ is_nan b = false /\ key_lt (key a) (key b).
Proof.
  unfold lt, SFltb, SFcompare.
  destruct a as [sa|sa| |sa ma ea], b as [sb|sb| |sb mb eb];
    try destruct sa; try destruct sb; cbn;
    try (split; [ discriminate | intros (_ & _ & H); lia ]);
    try (split; [ discriminate | intros (H & _); discriminate ]);
    try (split; [ discriminate | intros (_ & H & _); discriminate ]);
    try (split; [ intros _; repeat split; lia | reflexivity ]).
  - destruct (Z.compare_spec ea eb); cbn.
    + rewrite Pos.compare_cont_spec; cbn.
      destruct (Pos.compare_spec ma mb); cbn;
        (split; [ try discriminate; intros _; repeat split; lia
                | try reflexivity; intros (_ & _ & H'); lia ]).
    + split; [ discriminate | intros (_ & _ & H'); lia ].
    + split; [ intros _; repeat split; lia | reflexivity ].
  - destruct (Z.compare_spec ea eb); cbn.
    + rewrite Pos.compare_cont_spec; cbn.
      destruct (Pos.compare_spec ma mb); cbn;
        (split; [ try discriminate; intros _; repeat split; lia
                | try reflexivity; intros (_ & _ & H'); lia ]).
    + split; [ intros _; repeat split; lia | reflexivity ].
    + split; [ discriminate | intros (_ & _ & H'); lia ].
Qed.

Lemma lt_trans (a b c : float) :
  lt a b = true -> lt b c = true -> lt a c = true.
Proof.
  rewrite !lt_key. intros (Ha & Hb & Hab) (_ & Hc & Hbc).
  repeat split; trivial.
  unfold key_lt in *.
  destruct (key a) as [[a1 a2] a3], (key b) as [[b1 b2] b3],
           (key c) as [[c1 c2] c3].
  lia.
Qed.

Lemma lt_asym (a b : float) : lt a b = true -> lt b a = false.
Proof.
  intros H. destruct (lt b a) eqn:E; trivial.
  revert H E. rewrite !lt_key. intros (_ & _ & Hab) (_ & _ & Hba).
  unfold key_lt in *.
  destruct (key a) as [[a1 a2] a3], (key b) as [[b1 b2] b3]. lia.
Qed.

Lemma lt_irrefl (a : float) : lt a a = false.
Proof.
  destruct (lt a a) eqn:E; trivial.
  pose proof (lt_asym _ _ E). congruence.
Qed.

(** A float that is not below [b] has nothing above [b] below it. *)
Lemma not_lt_above (a b c : float) :
  lt a c = false -> lt a b = true -> lt b c = false.
Proof.
  intros Hac Hab. destruct (lt b c) eqn:E; trivial.
  rewrite (lt_trans _ _ _ Hab E) in Hac. discriminate.
Qed.

(** ** Dicts *)

Lemma contains_In {V} (k : string) (d : dict V) :
  contains k d = true <-> In k (keys d).
Proof.
  unfold contains, keys. rewrite existsb_exists. split.
  - intros (kv & Hin & Heq). apply String.eqb_eq in Heq. subst.
    now apply in_map.
  - intros Hin. apply in_map_iff in Hin. destruct Hin as (kv & Heq & Hin).
    exists kv. split; trivial. subst. apply String.eqb_refl.
Qed.

Lemma keys_set_fresh {V} (k : string) (v : V) (d : dict V) :
  ~ In k (keys d) -> keys (PyDict.set k v d) = keys d ++ [k].
Proof.
  induction d as [|[k' v'] d IH]; cbn; intros Hk; trivial.
  destruct (String.eqb_spec k k') as [->|Hne].
  - exfalso. apply Hk. now left.
  - cbn. f_equal. apply IH. intros Hin. apply Hk. now right.
Qed.

Lemma values_set_fresh {V} (k : string) (v : V) (d : dict V) :
  ~ In k (keys d) -> values (PyDict.set k v d) = values d ++ [v].
Proof.
  induction d as [|[k' v'] d IH]; cbn; intros Hk; trivial.
  destruct (String.eqb_spec k k') as [->|Hne].
  - exfalso. apply Hk. now left.
  - cbn. f_equal. apply IH. intros Hin. apply Hk. now right.
Qed.

Lemma set_entries {V} (k : string) (v : V) (d : dict V) (kv : string * V) :
  In kv (PyDict.set k v d) -> kv = (k, v) \/ In kv d.
Proof.
  induction d as [|[k' v'] d IH]; cbn.
  - intros [H|[]]. now left.
  - destruct (String.eqb_spec k k') as [->|Hne]; cbn.
    + intros [H|H]; [now left | right; now right].
    + intros [H|H]; [right; now left |].
      destruct (IH H) as [H'|H']; [now left | right; now right].
Qed.

Lemma set_contains {V} (k k' : string) (v : V) (d : dict V) :
  contains k' (PyDict.set k v d) = String.eqb k' k || contains k' d.
Proof.
  unfold contains.
  induction d as [|[k0 v0] d IH]; cbn.
  - now rewrite orb_false_r.
  - destruct (String.eqb_spec k k0) as [->|Hne]; cbn.
    + destruct (String.eqb k' k0); reflexivity.
    + rewrite IH. destruct (String.eqb k' k0), (String.eqb k' k); reflexivity.
Qed.

(** Every entry of [{key(x): x for x in xs}] maps the key of an element of
    [xs] to that element, and every element's key is present. *)
Lemma comprehension_fold_entries {V} (key : V -> string) (xs : list V) :
  forall (acc : dict V) (kv : string * V),
    In kv (fold_left (fun d x => PyDict.set (key x) x d) xs acc) ->
    In kv acc \/ (fst kv = key (snd kv) /\ In (snd kv) xs).
Proof.
  induction xs as [|x xs IH]; cbn; intros acc kv H.
  - now left.
  - destruct (IH _ _ H) as [H'|(H1 & H2)].
    + destruct (set_entries _ _ _ _ H') as [->|H'']; [right | now left].
      cbn. split; trivial. now left.
    + right. split; trivial. now right.
Qed.

Lemma comprehension_entries {V} (key : V -> string) (xs : list V)
    (kv : string * V) :
  In kv (comprehension key xs) -> fst kv = key (snd kv) /\ In (snd kv) xs.
Proof.
  intros H. destruct (comprehension_fold_entries key xs [] kv H) as [[]|H'].
  exact H'.
Qed.

Lemma comprehension_fold_contains {V} (key : V -> string) (xs : list V) :
  forall (acc : dict V) (k : string),
    contains k acc = true \/ (exists x, In x xs /\ key x = k) ->
    contains k (fold_left (fun d x => PyDict.set (key x) x d) xs acc) = true.
Proof.
  induction xs as [|x xs IH]; cbn; intros acc k H.
  - destruct H as [H|(x & [] & _)]. exact H.
  - apply IH. rewrite set_contains.
    destruct H as [H|(y & [->|Hy] & Hk)].
    + left. rewrite H. apply orb_true_r.
    + left. subst. now rewrite String.eqb_refl.
    + right. now exists y.
Qed.

Lemma comprehension_contains {V} (key : V -> string) (xs : list V) (x : V) :
  In x xs -> contains (key x) (comprehension key xs) = true.
Proof.
  intros H. apply comprehension_fold_contains. right. now exists x.
Qed.

Lemma registered_contains {V} (key : V -> string) (xs : list V) (x : V) :
  In x (values (comprehension key xs)) ->
  contains (key x) (comprehension key xs) = true.
Proof.
  unfold values. intros H. apply in_map_iff in H.
  destruct H as (kv & Hx & Hin).
  destruct (comprehension_entries _ _ _ Hin) as (Hk & _).
  apply contains_In. unfold keys. subst x. rewrite <- Hk. now apply in_map.
Qed.

(** ** The monad and the loops *)

Lemma for_loop_app {W I S} (body : I -> S -> M W (control S))
    (l1 l2 : list I) :
  forall (s : S) (e : Env W),
    for_loop body (l1 ++ l2) s e =
    match for_loop body l1 s e with
    | ((s1, Exhausted), e1) => for_loop body l2 s1 e1
    | r => r
    end.
Proof.
  induction l1 as [|i l1 IH]; cbn; intros s e; trivial.
  destruct (body i s e) as [[[s'|s']|x] e']; trivial.
Qed.

Lemma for_list_length {W I A} (f : I -> M W A) (xs : list I) :
  forall (e e' : Env W) (l : list A),
    for_list f xs e = (Ok l, e') -> List.length l = List.length xs.
Proof.
  induction xs as [|x xs IH]; cbn; intros e e' l H.
  - inversion H. reflexivity.
  - unfold bind in H. destruct (f x e) as [[a|x0] e1]; [|discriminate].
    destruct (for_list f xs e1) as [[l'|x0] e2] eqn:E; [|discriminate].
    inversion H. subst. cbn. f_equal. eapply IH. exact E.
Qed.

Section Properties.

Context {C : Collaborators}.

(** ** The three models before and after [fit] *)

Lemma fit_keeps_fixed_parameters (self fitted : ScipyDistribution)
    (X : ndarray) (e e' : Env World) :
  ScipyDistribution_fit self X e = (Ok fitted, e') ->
  fixed_parameters fitted = fixed_parameters self.
Proof.
  unfold ScipyDistribution_fit, bind, lift, ret.
  destruct (distribution self) as [d|].
  - destruct (fixed_parameters self) eqn:Hfixed; cbn.
    + intros H. inversion H. subst. exact Hfixed.
    + destruct (shape_into_2d X) as [X2|x]; [|discriminate].
      destruct (rv_fit d X2 e) as [[fitted'|x] e1]; [|discriminate].
      destruct (map_scipy_distribution_parameters_to_names d fitted')
        as [named|x]; [|discriminate].
      intros H. inversion H. reflexivity.
  - destruct (find_suitable_continuous_distribution X
                default_divergence_threshold e) as [[[best named]|x] e1];
      [|discriminate].
    intros H. inversion H. reflexivity.
Qed.

Lemma draw_samples_without_parameters (d : option family) (n : Z)
    (e : Env World) :
  ScipyDistribution_draw_samples (ScipyDistribution_init d []) n e
  = (Raise ScipyDistribution_not_fitted, e).
Proof. reflexivity. Qed.

(** C1 (amended).  A freshly constructed [EmpiricalDistribution] or
    [BayesianGaussianMixtureDistribution] raises its not-fitted error on
    [draw_samples].  A freshly constructed [ScipyDistribution] raises its
    not-fitted error when it was constructed without a family or without
    parameters; constructed with a family and parameters it passes the check
    and draws from the family with those parameters. *)
Theorem draw_samples_before_fit :
  (forall n e,
      EmpiricalDistribution_draw_samples EmpiricalDistribution_init n e
      = (Raise EmpiricalDistribution_not_fitted, e))
  /\ (forall n e,
      BayesianGaussianMixtureDistribution_draw_samples
        BayesianGaussianMixtureDistribution_init n e
      = (Raise BayesianGaussianMixtureDistribution_not_fitted, e))
  /\ (forall params n e,
      ScipyDistribution_draw_samples (ScipyDistribution_init None params) n e
      = (Raise ScipyDistribution_not_fitted, e))
  /\ (forall d n e,
      ScipyDistribution_draw_samples (ScipyDistribution_init d []) n e
      = (Raise ScipyDistribution_not_fitted, e))
  /\ (forall d p ps n e,
      ScipyDistribution_draw_samples
        (ScipyDistribution_init (Some d) (p :: ps)) n e
      = (samples <- rv_rvs d [] n (p :: ps) ;; lift (shape_into_2d samples)) e).
Proof.
  repeat split.
  intros params n e. unfold ScipyDistribution_draw_samples. cbn.
  destruct (List.length params =? 0)%nat; reflexivity.
Qed.

(** C2 (amended).  The clone of an [EmpiricalDistribution] or of a
    [BayesianGaussianMixtureDistribution] raises the not-fitted error on
    [draw_samples], whatever the model it was cloned from.  So does the clone
    of a fitted [ScipyDistribution] that was constructed without parameters:
    the estimated parameters are not carried over.  The clone of a fitted
    [ScipyDistribution] constructed with a family and parameters is the model
    as constructed, parameters included. *)
Theorem clone_is_not_fitted :
  (forall self n e,
      EmpiricalDistribution_draw_samples (EmpiricalDistribution_clone self) n e
      = (Raise EmpiricalDistribution_not_fitted, e))
  /\ (forall self n e,
      BayesianGaussianMixtureDistribution_draw_samples
        (BayesianGaussianMixtureDistribution_clone self) n e
      = (Raise BayesianGaussianMixtureDistribution_not_fitted, e))
  /\ (forall d X e fitted e' n e2,
      ScipyDistribution_fit (ScipyDistribution_init d []) X e = (Ok fitted, e') ->
      ScipyDistribution_draw_samples (ScipyDistribution_clone fitted) n e2
      = (Raise ScipyDistribution_not_fitted, e2))
  /\ (forall d p ps X e fitted e',
      ScipyDistribution_fit (ScipyDistribution_init (Some d) (p :: ps)) X e
      = (Ok fitted, e') ->
      ScipyDistribution_clone fitted
      = ScipyDistribution_init (Some d) (p :: ps)).
Proof.
  split; [reflexivity|]. split; [reflexivity|]. split.
  - intros d X e fitted e' n e2 H.
    apply fit_keeps_fixed_parameters in H. cbn in H.
    unfold ScipyDistribution_clone. rewrite H.
    apply draw_samples_without_parameters.
  - intros d p ps X e fitted e' H. cbn in H. inversion H. reflexivity.
Qed.

(** C3 (amended).  On a [ScipyDistribution] constructed with a family and
    parameters, [fit] changes neither the family nor the parameters, and
    calls no collaborator. *)
Theorem fit_with_fixed_parameters (d : family) (p : string * float)
    (ps : dict float) (X : ndarray) (e : Env World) :
  ScipyDistribution_fit (ScipyDistribution_init (Some d) (p :: ps)) X e
  = (Ok (ScipyDistribution_init (Some d) (p :: ps)), e).
Proof. reflexivity. Qed.

(** C10.  A [ScipyDistribution] constructed with parameters but without a
    family raises the not-fitted error on [draw_samples]. *)
Theorem draw_samples_without_family (p : string * float) (ps : dict float)
    (n : Z) (e : Env World) :
  ScipyDistribution_draw_samples (ScipyDistribution_init None (p :: ps)) n e
  = (Raise ScipyDistribution_not_fitted, e).
Proof. reflexivity. Qed.

(** ** Naming the parameters *)

Lemma name_parameters_keys (names : list string) (params : list float) :
  forall (i : nat) (acc : dict float),
    NoDup (keys acc ++ names) ->
    (i + List.length names = List.length params)%nat ->
    exists named,
      name_parameters i names params acc = Ok named
      /\ keys named = keys acc ++ names
      /\ values named = values acc ++ skipn i params.
Proof.
  induction names as [|k names IH]; cbn; intros i acc Hnd Hlen.
  - exists acc. rewrite !app_nil_r. repeat split.
    rewrite skipn_all2 by lia. now rewrite app_nil_r.
  - destruct (nth_error params i) as [v|] eqn:Hv.
    2:{ apply nth_error_None in Hv. lia. }
    assert (Hfresh : ~ In k (keys acc)).
    { intros Hin. apply NoDup_remove_2 in Hnd. apply Hnd.
      apply in_or_app. now left. }
    destruct (IH (S i) (PyDict.set k v acc)) as (named & H1 & H2 & H3).
    + rewrite keys_set_fresh by exact Hfresh.
      rewrite <- app_assoc. exact Hnd.
    + lia.
    + exists named. split; [exact H1|]. split.
      * rewrite H2, keys_set_fresh by exact Hfresh.
        now rewrite <- app_assoc.
      * rewrite H3, values_set_fresh by exact Hfresh.
        rewrite <- app_assoc. cbn. f_equal.
        clear - Hv. revert i Hv.
        induction params as [|x params IHp]; intros [|i] Hv; cbn in *;
          try discriminate.
        -- now inversion Hv.
        -- now apply IHp.
Qed.

(** C6.  For a family registered in the discrete catalog, and for a family
    registered in the continuous catalog (whose name is not the name of a
    discrete family), naming a raw parameter tuple of matching length gives a
    dict whose keys are the declared shape-parameter names followed by [loc],
    respectively [loc, scale], in that order, with the tuple's values in the
    same order.  Declared names are distinct and differ from the trailing
    names, as scipy requires of them. *)
Theorem parameter_names_follow_family (d : family) (raw : list float)
    (trailing : list string) :
  (In d (values _DISCRETE_DISTRIBUTIONS) /\ trailing = ["loc"])
  \/ (In d (values _CONTINUOUS_DISTRIBUTIONS)
      /\ contains (name d) _DISCRETE_DISTRIBUTIONS = false
      /\ trailing = ["loc"; "scale"]) ->
  NoDup (shape_names d ++ trailing) ->
  List.length raw = List.length (shape_names d ++ trailing) ->
  exists named,
    map_scipy_distribution_parameters_to_names d raw = Ok named
    /\ keys named = shape_names d ++ trailing
    /\ values named = raw.
Proof.
  intros Hreg Hnd Hlen.
  unfold map_scipy_distribution_parameters_to_names.
  destruct Hreg as [(Hin & ->)|(Hin & Hnot & ->)].
  - apply registered_contains in Hin.
    fold _DISCRETE_DISTRIBUTIONS in Hin. rewrite Hin.
    apply (name_parameters_keys _ raw 0 []); cbn; [exact Hnd | lia].
  - apply registered_contains in Hin.
    fold _CONTINUOUS_DISTRIBUTIONS in Hin. rewrite Hnot, Hin.
    apply (name_parameters_keys _ raw 0 []); cbn; [exact Hnd | lia].
Qed.

(** ** The search for a suitable continuous family *)

Lemma evaluate_family_calls (X : ndarray) (d : family) (params : list float)
    (dv : float) (e e2 : Env World) :
  evaluate_family X d e = (Ok (Some (params, dv)), e2) ->
  calls e2 = calls e ++ [call_fit (name d); call_rvs (name d);
                         call_estimate_kl_divergence_continuous].
Proof.
  unfold evaluate_family, try_except_ValueError, rv_fit, rv_rvs, kl_divergence,
    external, bind, lift, ret.
  destruct (fit d X (world e)) as [[fitted|x] w1]; cbn.
  2:{ destruct x; cbn; discriminate. }
  destruct (tuple_get fitted (-2)) as [loc|x]; [|discriminate].
  destruct (tuple_get fitted (-1)) as [scale|x]; [|discriminate].
  cbn.
  destruct (rvs d _ _ _ w1) as [[generated|x] w2]; cbn; [|discriminate].
  destruct (estimate_kl_divergence_continuous X generated w2)
    as [[divergence|x] w3]; cbn; [|discriminate].
  intros H. inversion H. cbn. now rewrite <- !app_assoc.
Qed.

Lemma search_body_skips (X : ndarray) (thr : float) (d : family) (s : search)
    (e e1 : Env World) :
  evaluate_family X d e = (Ok None, e1) ->
  search_body X thr d s e = (Ok (Continue s), e1).
Proof. unfold search_body, bind. now intros ->. Qed.

Lemma search_body_accepts (X : ndarray) (thr : float) (d : family) (s : search)
    (params : list float) (dv : float) (e e1 : Env World) :
  evaluate_family X d e = (Ok (Some (params, dv)), e1) ->
  lt dv thr = true ->
  search_body X thr d s e
  = (Ok (Break (mk_search d params (currently_smallest_divergence s))), e1).
Proof. unfold search_body, bind. now intros -> ->. Qed.

Lemma search_body_keeps_smaller (X : ndarray) (thr : float) (d : family)
    (s : search) (params : list float) (dv : float) (e e1 : Env World) :
  evaluate_family X d e = (Ok (Some (params, dv)), e1) ->
  lt dv thr = false ->
  search_body X thr d s e = (Ok (Continue (keep_smaller s (d, params, dv))), e1).
Proof.
  unfold search_body, bind, keep_smaller. intros -> ->.
  now destruct (gt (currently_smallest_divergence s) dv).
Qed.

(** When no family of the list is acceptable, the loop goes through the
    whole list and keeps, of the evaluations, the first smallest one. *)
Lemma search_exhausts (X : ndarray) (thr : float) (families : list family) :
  forall (s : search) (e e1 : Env World) evs,
    evaluations X families e = (Ok evs, e1) ->
    (forall d p dv, In (d, p, dv) evs -> lt dv thr = false) ->
    for_loop (search_body X thr) families s e
    = ((fold_left keep_smaller evs s, Exhausted), e1).
Proof.
  induction families as [|d families IH]; cbn; intros s e e1 evs H Hthr.
  - inversion H. reflexivity.
  - unfold bind in H.
    destruct (evaluate_family X d e) as [[r|x] e'] eqn:Hd; [|discriminate].
    destruct (evaluations X families e') as [[others|x] e''] eqn:Hrest;
      [|discriminate].
    cbn in H. inversion H. subst e''. clear H.
    destruct r as [[params dv]|].
    + subst evs.
      rewrite (search_body_keeps_smaller X thr d s e Hd).
      * cbn. apply IH; trivial.
        intros d' p' dv' Hin. apply (Hthr d' p' dv'). now right.
      * apply (Hthr d params dv). now left.
    + subst evs. rewrite (search_body_skips X thr d s e Hd). now apply IH.
Qed.

Lemma keep_smaller_above (dv : float) evs :
  forall s : search,
    (forall d' p' dv', In (d', p', dv') evs -> lt dv dv' = true) ->
    lt dv (currently_smallest_divergence s) = true ->
    lt dv (currently_smallest_divergence (fold_left keep_smaller evs s)) = true.
Proof.
  induction evs as [|[[d' p'] dv'] evs IH]; cbn; intros s Hall Hs; trivial.
  apply IH.
  - intros d2 p2 dv2 Hin. apply (Hall d2 p2 dv2). now right.
  - destruct (gt (currently_smallest_divergence s) dv'); cbn; trivial.
    apply (Hall d' p' dv'). now left.
Qed.

Lemma keep_smaller_unchanged evs :
  forall s : search,
    (forall d' p' dv', In (d', p', dv') evs ->
                       lt dv' (currently_smallest_divergence s) = false) ->
    fold_left keep_smaller evs s = s.
Proof.
  induction evs as [|[[d' p'] dv'] evs IH]; cbn; intros s Hall; trivial.
  unfold gt. rewrite (Hall d' p' dv') by now left.
  apply IH. intros d2 p2 dv2 Hin. apply (Hall d2 p2 dv2). now right.
Qed.

Lemma keep_smaller_strictly_smallest before d p dv after :
  lt dv inf = true ->
  (forall d' p' dv', In (d', p', dv') (before ++ after) -> lt dv dv' = true) ->
  fold_left keep_smaller (before ++ (d, p, dv) :: after) search_init
  = mk_search d p dv.
Proof.
  intros Hinf Hall. rewrite fold_left_app. cbn.
  unfold gt at 1. rewrite keep_smaller_above; trivial.
  - apply keep_smaller_unchanged. cbn. intros d' p' dv' Hin.
    apply lt_asym. apply (Hall d' p' dv'). apply in_or_app. now right.
  - intros d' p' dv' Hin. apply (Hall d' p' dv'). apply in_or_app. now left.
Qed.

Lemma named_result_bind (d : family) (params : list float) (e : Env World) :
  (named <- lift (map_scipy_distribution_parameters_to_names d params) ;;
   ret (d, named)) e
  = (named_result d params, e).
Proof.
  unfold named_result, bind, lift, ret.
  now destruct (map_scipy_distribution_parameters_to_names d params).
Qed.

Lemma norm_is_continuous :
  contains (name norm) _CONTINUOUS_DISTRIBUTIONS = true.
Proof.
  unfold _CONTINUOUS_DISTRIBUTIONS. apply comprehension_contains.
  unfold continuous_list, continuous_seed. cbn. now left.
Qed.

(** C4.  Let [d] be the first family of the continuous catalog, in the order
    of iteration, whose estimated divergence is below the threshold: the
    families before it were evaluated and none of them was below it.  Then
    the search returns [d] with its fitted parameters, named; and it ends
    with the three calls that evaluate [d]: no later family is fitted,
    sampled or compared. *)
Theorem first_acceptable_family_is_returned (samples X : ndarray) (thr : float)
    (before after : list family) (d : family)
    (evs : list (family * list float * float)) (params : list float)
    (dv : float) (e e1 e2 : Env World) :
  shape_into_2d samples = Ok X ->
  values _CONTINUOUS_DISTRIBUTIONS = before ++ d :: after ->
  evaluations X before e = (Ok evs, e1) ->
  (forall d' p' dv', In (d', p', dv') evs -> lt dv' thr = false) ->
  evaluate_family X d e1 = (Ok (Some (params, dv)), e2) ->
  lt dv thr = true ->
  find_suitable_continuous_distribution samples thr e
  = (named_result d params, e2)
  /\ calls e2 = calls e1 ++ [call_fit (name d); call_rvs (name d);
                             call_estimate_kl_divergence_continuous].
Proof.
  intros HX Hcat Hbefore Hnone Hd Hdv. split.
  - unfold find_suitable_continuous_distribution.
    unfold bind at 1, lift at 1. rewrite HX.
    unfold bind at 1, for_each. rewrite Hcat, for_loop_app.
    rewrite (search_exhausts X thr before search_init e Hbefore Hnone). cbn.
    rewrite (search_body_accepts X thr d _ e1 Hd Hdv). cbn.
    apply named_result_bind.
  - exact (evaluate_family_calls X d e1 Hd).
Qed.

(** C5 (amended).  Suppose every family of the continuous catalog was
    evaluated and none is below the threshold.  If one of the families that
    could be fitted has a divergence below infinity that is strictly smaller
    than the divergence of every other, the search returns that family with
    its fitted parameters, named.  If no family that could be fitted has a
    divergence below infinity (in particular if no family could be fitted),
    it returns the normal family with [loc = 0.0] and [scale = 1.0]. *)
Theorem smallest_divergence_is_returned (samples X : ndarray) (thr : float)
    (evs : list (family * list float * float)) (e e1 : Env World) :
  shape_into_2d samples = Ok X ->
  evaluations X (values _CONTINUOUS_DISTRIBUTIONS) e = (Ok evs, e1) ->
  (forall d p dv, In (d, p, dv) evs -> lt dv thr = false) ->
  (forall before d p dv after,
      evs = before ++ (d, p, dv) :: after ->
      lt dv inf = true ->
      (forall d' p' dv', In (d', p', dv') (before ++ after) ->
                         lt dv dv' = true) ->
      find_suitable_continuous_distribution samples thr e
      = (named_result d p, e1))
  /\ ((forall d p dv, In (d, p, dv) evs -> lt dv inf = false) ->
      shape_names norm = [] ->
      contains (name norm) _DISCRETE_DISTRIBUTIONS = false ->
      find_suitable_continuous_distribution samples thr e
      = (Ok (norm, [("loc", zero); ("scale", one)]), e1)).
Proof.
  intros HX Hevs Hnone.
  assert (Hrun : forall s,
    fold_left keep_smaller evs search_init = s ->
    find_suitable_continuous_distribution samples thr e
    = (named_result (currently_best_distribution s)
                    (currently_best_parameters s), e1)).
  { intros s Hs. unfold find_suitable_continuous_distribution.
    unfold bind at 1, lift at 1. rewrite HX.
    unfold bind at 1, for_each.
    rewrite (search_exhausts X thr _ search_init e Hevs Hnone), Hs.
    apply named_result_bind. }
  split.
  - intros before d p dv after -> Hinf Hall.
    now rewrite (Hrun _ (keep_smaller_strictly_smallest _ _ _ _ _ Hinf Hall)).
  - intros Hall Hshapes Hdiscrete.
    rewrite (Hrun search_init).
    + cbn. unfold named_result, map_scipy_distribution_parameters_to_names.
      rewrite Hdiscrete, norm_is_continuous, Hshapes. reflexivity.
    + apply keep_smaller_unchanged. exact Hall.
Qed.

(** ** The number of mixture components *)

Lemma selection_body_scores (X : ndarray) (i : Z) (s : selection) (c : float)
    (e e1 : Env World) :
  score_candidate X i e = (Ok c, e1) ->
  selection_body X i s e
  = (Ok (if 3 <=? num_best_in_succession (record_score i c s)
         then Break (record_score i c s)
         else Continue (record_score i c s)), e1).
Proof.
  unfold selection_body, bind. intros ->.
  now destruct (3 <=? num_best_in_succession (record_score i c s)).
Qed.

Lemma selection_body_raises (X : ndarray) (i : Z) (s : selection) (x : exn)
    (e e1 : Env World) :
  score_candidate X i e = (Raise x, e1) ->
  selection_body X i s e = (Raise x, e1).
Proof. unfold selection_body, bind. now intros ->. Qed.

(** A loop that ends without an exception has scored a prefix of the
    candidates, none of them failing, and holds what these scores leave. *)
Lemma selection_loop_evaluated (X : ndarray) (cands : list Z) :
  forall (s s' : selection) (c : completion) (e e' : Env World),
    for_loop (selection_body X) cands s e = ((s', c), e') ->
    (forall x, c <> Raised x) ->
    exists evaluated scores rest,
      cands = evaluated ++ rest
      /\ for_list (score_candidate X) evaluated e = (Ok scores, e')
      /\ s' = record_all s (combine evaluated scores)
      /\ (cands <> [] -> evaluated <> []).
Proof.
  induction cands as [|i cands IH]; cbn; intros s s' c e e' H Hc.
  - inversion H. subst. exists [], [], []. repeat split. intros []; trivial.
  - destruct (score_candidate X i e) as [[c0|x] e1] eqn:Hi.
    + rewrite (selection_body_scores X i s e Hi) in H.
      destruct (3 <=? num_best_in_succession (record_score i c0 s)).
      * inversion H. subst. exists [i], [c0], cands. cbn.
        unfold bind, ret. rewrite Hi. repeat split. discriminate.
      * destruct (IH _ _ _ _ _ H Hc) as (ev & sc & rest & H1 & H2 & H3 & _).
        exists (i :: ev), (c0 :: sc), rest. cbn.
        unfold bind, ret. rewrite Hi, H2. subst. repeat split. discriminate.
    + rewrite (selection_body_raises X i s e Hi) in H.
      inversion H. subst. now destruct (Hc x).
Qed.

Lemma record_score_holds_best (i : Z) (c : float) (s : selection)
    (seen : list (Z * float)) :
  holds_best s seen -> holds_best (record_score i c s) (seen ++ [(i, c)]).
Proof.
  unfold holds_best, record_score, gt.
  intros [(Hk & Hz & Hall)|(Hin & Hpos & Hall)].
  - rewrite Hz in *. destruct (lt zero c) eqn:Hc; cbn.
    + right. split; [apply in_or_app; right; now left|]. split; trivial.
      intros j c' Hj. apply in_app_or in Hj. destruct Hj as [Hj|[Hj|[]]].
      * apply (not_lt_above zero); trivial. now apply (Hall j).
      * inversion Hj. apply lt_irrefl.
    + left. repeat split; trivial.
      intros j c' Hj. apply in_app_or in Hj. destruct Hj as [Hj|[Hj|[]]].
      * now apply (Hall j).
      * inversion Hj. now subst.
  - destruct (lt (current_best s) c) eqn:Hc; cbn.
    + right. split; [apply in_or_app; right; now left|]. split.
      * now apply (lt_trans _ _ _ Hpos).
      * intros j c' Hj. apply in_app_or in Hj. destruct Hj as [Hj|[Hj|[]]].
        -- apply (not_lt_above (current_best s)); trivial. now apply (Hall j).
        -- inversion Hj. apply lt_irrefl.
    + right. split; [apply in_or_app; now left|]. split; trivial.
      intros j c' Hj. apply in_app_or in Hj. destruct Hj as [Hj|[Hj|[]]].
      * now apply (Hall j).
      * inversion Hj. now subst.
Qed.

Lemma record_all_holds_best (scored : list (Z * float)) :
  forall (s : selection) (seen : list (Z * float)),
    holds_best s seen -> holds_best (record_all s scored) (seen ++ scored).
Proof.
  unfold record_all.
  induction scored as [|[i c] scored IH]; cbn; intros s seen H.
  - now rewrite app_nil_r.
  - replace (seen ++ (i, c) :: scored) with ((seen ++ [(i, c)]) ++ scored)
      by now rewrite <- app_assoc.
    apply IH. now apply record_score_holds_best.
Qed.

Lemma selection_init_holds_best : holds_best selection_init [].
Proof. left. repeat split. intros i c []. Qed.

Lemma empty_range_returns_one (X : ndarray) (bound : Z) (e : Env World) :
  candidate_bound X = Ok bound ->
  py_range 2 bound = [] ->
  get_optimal_number_of_components X e = (Ok 1, e).
Proof.
  intros Hb Hr. unfold get_optimal_number_of_components, selection_try.
  now rewrite Hb, Hr.
Qed.

Lemma bound_below_18_rows (n : nat) :
  (n < 18)%nat ->
  exists bound,
    py_int (sqrt (int_truediv (Z.of_nat n) 2)) = Ok bound /\ bound <= 2.
Proof.
  intros H.
  do 18 (destruct n as [|n];
         [eexists; split; [lazy; reflexivity | lia] | ]).
  lia.
Qed.

Lemma py_range_empty (a b : Z) : b <= a -> py_range a b = [].
Proof.
  intros H. unfold py_range. now replace (Z.to_nat (b - a)) with 0%nat by lia.
Qed.

(** The range of candidates is empty up to 17 rows. *)
Lemma fewer_than_18_rows_give_one (X : ndarray) (e : Env World) :
  (shape0 X < 18)%nat ->
  get_optimal_number_of_components X e = (Ok 1, e).
Proof.
  intros H. destruct (bound_below_18_rows H) as (bound & Hb & Hle).
  apply (empty_range_returns_one X e Hb). now apply py_range_empty.
Qed.

(** C7.  When the range of candidate counts, from 2 up to but excluding
    [int(sqrt(rows / 2))], is empty, the selection returns 1 and calls no
    collaborator; this is the case for every array with fewer than 5 rows. *)
Theorem empty_candidate_range_gives_one :
  (forall X bound e,
      candidate_bound X = Ok bound ->
      py_range 2 bound = [] ->
      get_optimal_number_of_components X e = (Ok 1, e))
  /\ (forall X e,
      (shape0 X < 5)%nat ->
      get_optimal_number_of_components X e = (Ok 1, e)).
Proof.
  split.
  - exact empty_range_returns_one.
  - intros X e H. apply fewer_than_18_rows_give_one. lia.
Qed.

(** C8 (amended).  When the range of candidate counts is not empty and the
    [try] block ends without an exception, a non-empty prefix of the range
    was scored, and the selection returns the scored count whose score is the
    best of all the scores, provided that score is above zero; when no score
    is above zero it returns 1. *)
Theorem best_scoring_count_is_returned (X : ndarray) (bound : Z)
    (s : selection) (c : completion) (e e' : Env World) :
  candidate_bound X = Ok bound ->
  py_range 2 bound <> [] ->
  selection_try X e = ((s, c), e') ->
  (forall x, c <> Raised x) ->
  exists evaluated scores rest k,
    evaluated <> []
    /\ py_range 2 bound = evaluated ++ rest
    /\ for_list (score_candidate X) evaluated e = (Ok scores, e')
    /\ get_optimal_number_of_components X e = (Ok k, e')
    /\ ((exists best,
            In (k, best) (combine evaluated scores)
            /\ lt zero best = true
            /\ forall c', In c' scores -> lt best c' = false)
        \/ (k = 1 /\ forall c', In c' scores -> lt zero c' = false)).
Proof.
  intros Hb Hne Htry Hc.
  assert (Hget : get_optimal_number_of_components X e
                 = (Ok (current_best_num_components s), e')).
  { unfold get_optimal_number_of_components. rewrite Htry.
    destruct c as [| |x]; trivial. now destruct (Hc x). }
  unfold selection_try in Htry. rewrite Hb in Htry.
  destruct (selection_loop_evaluated _ _ _ _ Htry Hc)
    as (evaluated & scores & rest & Hsplit & Hscores & Hs & Hev).
  exists evaluated, scores, rest, (current_best_num_components s).
  split; [now apply Hev|]. split; trivial. split; trivial. split; trivial.
  pose proof (record_all_holds_best (combine evaluated scores)
                selection_init_holds_best) as Hbest.
  cbn in Hbest. rewrite <- Hs in Hbest.
  assert (Hin : forall c', In c' scores ->
                exists i, In (i, c') (combine evaluated scores)).
  { apply for_list_length in Hscores. clear - Hscores.
    revert evaluated Hscores.
    induction scores as [|c0 scores IH]; intros [|i ev] Hlen c' Hc';
      cbn in *; try discriminate; try contradiction.
    destruct Hc' as [->|Hc'].
    - exists i. now left.
    - destruct (IH ev) with (c' := c') as (j & Hj); [lia | trivial |].
      exists j. now right. }
  destruct Hbest as [(Hk & _ & Hall)|(Hk & Hpos & Hall)].
  - right. split; trivial. intros c' Hc'.
    destruct (Hin c' Hc') as (i & Hi). now apply (Hall i).
  - left. exists (current_best s). repeat split; trivial.
    intros c' Hc'. destruct (Hin c' Hc') as (i & Hi). now apply (Hall i).
Qed.

(** A loop that went through all its candidates has scored each of them
    and holds what these scores leave. *)
Lemma selection_loop_exhausted (X : ndarray) (cands : list Z) :
  forall (s s' : selection) (e e' : Env World),
    for_loop (selection_body X) cands s e = ((s', Exhausted), e') ->
    exists scores,
      for_list (score_candidate X) cands e = (Ok scores, e')
      /\ s' = record_all s (combine cands scores).
Proof.
  induction cands as [|i cands IH]; cbn; intros s s' e e' H.
  - inversion H. subst. exists []. split; reflexivity.
  - destruct (score_candidate X i e) as [[c0|x] e1] eqn:Hi.
    + rewrite (selection_body_scores X i s e Hi) in H.
      destruct (3 <=? num_best_in_succession (record_score i c0 s)).
      * discriminate.
      * destruct (IH _ _ _ _ H) as (scores & H1 & H2).
        exists (c0 :: scores). unfold bind, ret. rewrite Hi, H1.
        split; trivial.
    + rewrite (selection_body_raises X i s e Hi) in H. discriminate.
Qed.

Lemma score_of_a_candidate (cands : list Z) :
  forall (scores : list float) (c : float),
    List.length scores = List.length cands ->
    In c scores -> exists i, In (i, c) (combine cands scores).
Proof.
  induction cands as [|i cands IH]; intros [|c0 scores] c Hlen Hc;
    cbn in *; try discriminate; try contradiction.
  destruct Hc as [->|Hc].
  - exists i. now left.
  - destruct (IH scores c) as (j & Hj); [lia | trivial |].
    exists j. now right.
Qed.

(** C9.  The selection never raises a [ValueError].  When the candidates
    before [i] were scored, leaving the loop variables [s1], and clustering or
    scoring [i] raises a [ValueError], the selection returns the count held
    in [s1], and this count is the best found so far: the candidate before
    [i] whose score is the best of their scores, provided that score is above
    zero, and 1 when none of these scores is above zero; in particular it is
    1 when [i] is the first candidate. *)
Theorem clustering_failure_is_absorbed :
  (forall X e msg,
      fst (get_optimal_number_of_components X e) <> Raise (ValueError msg))
  /\ (forall X bound before i after s1 e e1 e2 msg,
      candidate_bound X = Ok bound ->
      py_range 2 bound = before ++ i :: after ->
      for_loop (selection_body X) before selection_init e
      = ((s1, Exhausted), e1) ->
      score_candidate X i e1 = (Raise (ValueError msg), e2) ->
      exists scores k,
        for_list (score_candidate X) before e = (Ok scores, e1)
        /\ k = current_best_num_components s1
        /\ get_optimal_number_of_components X e = (Ok k, e2)
        /\ ((exists best,
                In (k, best) (combine before scores)
                /\ lt zero best = true
                /\ forall c', In c' scores -> lt best c' = false)
            \/ (k = 1 /\ forall c', In c' scores -> lt zero c' = false)))
  /\ (forall X bound i after e e2 msg,
      candidate_bound X = Ok bound ->
      py_range 2 bound = i :: after ->
      score_candidate X i e = (Raise (ValueError msg), e2) ->
      get_optimal_number_of_components X e = (Ok 1, e2)).
Proof.
  assert (Hfail : forall X bound before i after s1 e e1 e2 msg,
      candidate_bound X = Ok bound ->
      py_range 2 bound = before ++ i :: after ->
      for_loop (selection_body X) before selection_init e
      = ((s1, Exhausted), e1) ->
      score_candidate X i e1 = (Raise (ValueError msg), e2) ->
      get_optimal_number_of_components X e
      = (Ok (current_best_num_components s1), e2)).
  { intros X bound before i after s1 e e1 e2 msg Hb Hr Hbefore Hi.
    unfold get_optimal_number_of_components, selection_try.
    rewrite Hb, Hr, for_loop_app, Hbefore. cbn.
    now rewrite (selection_body_raises X i s1 e1 Hi). }
  split; [|split].
  - intros X e msg. unfold get_optimal_number_of_components.
    destruct (selection_try X e) as [[s c] e'].
    destruct c as [| |[]]; cbn; discriminate.
  - intros X bound before i after s1 e e1 e2 msg Hb Hr Hbefore Hi.
    destruct (selection_loop_exhausted X before _ e Hbefore)
      as (scores & Hscores & Hs1).
    exists scores, (current_best_num_components s1).
    split; trivial. split; trivial.
    split; [exact (Hfail X bound before i after s1 e e1 e2 msg Hb Hr Hbefore Hi)|].
    pose proof (record_all_holds_best (combine before scores)
                  selection_init_holds_best) as Hbest.
    cbn in Hbest. rewrite <- Hs1 in Hbest.
    pose proof (for_list_length _ _ _ Hscores) as Hlen.
    destruct Hbest as [(Hk & _ & Hall)|(Hk & Hpos & Hall)].
    + right. split; trivial. intros c' Hc'.
      destruct (score_of_a_candidate before scores c' Hlen Hc') as (j & Hj).
      now apply (Hall j).
    + left. exists (current_best s1). repeat split; trivial.
      intros c' Hc'.
      destruct (score_of_a_candidate before scores c' Hlen Hc') as (j & Hj).
      now apply (Hall j).
  - intros X bound i after e e2 msg Hb Hr Hi.
    apply (Hfail X bound [] i after selection_init e e e2 msg); trivial.
Qed.

End Properties.

(** ** The theorems on concrete collaborators *)

(** A [ScipyDistribution] constructed with the normal family, [loc = 5] and
    [scale = 2] draws samples without having been fitted. *)
Lemma fixed_parameters_draw_before_fit :
  @ScipyDistribution_draw_samples Scenario.acceptable
    (Scenario.fixed_parameters_model Scenario.acceptable) 3 Scenario.start
  = (Ok [[1]; [1]; [1]], mkEnv 1%nat [call_rvs "norm"]).
Proof. reflexivity. Qed.

(** Fitted and then cloned, the same model still draws samples: the clone
    carries the parameters. *)
Lemma fixed_parameters_clone_draws :
  exists fitted,
    @ScipyDistribution_fit Scenario.acceptable
      (Scenario.fixed_parameters_model Scenario.acceptable)
      (Scenario.rows 4) Scenario.start
    = (Ok fitted, Scenario.start)
    /\ ScipyDistribution_draw_samples (ScipyDistribution_clone fitted) 3
         Scenario.start
       = (Ok [[1]; [1]; [1]], mkEnv 1%nat [call_rvs "norm"]).
Proof.
  exists (Scenario.fixed_parameters_model Scenario.acceptable).
  split; reflexivity.
Qed.

Lemma clone_is_not_fitted_witness :
  exists fitted e',
    @ScipyDistribution_fit Scenario.acceptable
      (ScipyDistribution_init None []) (Scenario.rows 4) Scenario.start
    = (Ok fitted, e')
    /\ parameters fitted
       = [("loc", Scenario.three); ("scale", Scenario.two)]
    /\ ScipyDistribution_draw_samples (ScipyDistribution_clone fitted) 3 e'
       = (Raise ScipyDistribution_not_fitted, e').
Proof.
  eexists. eexists. split; [reflexivity|]. split; [reflexivity|].
  eapply (proj1 (proj2 (proj2 (@clone_is_not_fitted Scenario.acceptable)))
            None (Scenario.rows 4) Scenario.start).
  reflexivity.
Defined.

(** Constructed with [loc = 5] and [scale = 2] but without a family, the
    model is given the laplace family and its estimated parameters by
    [fit]. *)
Lemma fit_without_family_replaces_parameters :
  exists fitted e',
    @ScipyDistribution_fit Scenario.acceptable
      (ScipyDistribution_init None
         [("loc", Scenario.five); ("scale", Scenario.two)])
      (Scenario.rows 4) Scenario.start
    = (Ok fitted, e')
    /\ distribution fitted = Some Scenario.laplace_stub
    /\ parameters fitted = [("loc", Scenario.three); ("scale", Scenario.two)].
Proof. eexists. eexists. split; [reflexivity|]. split; reflexivity. Qed.

Lemma parameter_names_follow_family_witness :
  exists named,
    @map_scipy_distribution_parameters_to_names Scenario.acceptable
      Scenario.beta_stub
      [Scenario.two; Scenario.three; zero; one]
    = Ok named
    /\ keys named = ["a"; "b"; "loc"; "scale"]
    /\ values named = [Scenario.two; Scenario.three; zero; one].
Proof.
  apply (@parameter_names_follow_family Scenario.acceptable
           Scenario.beta_stub [Scenario.two; Scenario.three; zero; one]
           ["loc"; "scale"]).
  - right. split; [|split; reflexivity].
    cbn. do 5 right. now left.
  - cbn. repeat constructor; cbn; intuition discriminate.
  - reflexivity.
Defined.

Lemma first_acceptable_family_is_returned_witness :
  @find_suitable_continuous_distribution Scenario.acceptable
    (Scenario.rows 4) default_divergence_threshold Scenario.start
  = (Ok (Scenario.laplace_stub,
         [("loc", Scenario.three); ("scale", Scenario.two)]),
     mkEnv 2%nat
       [call_fit "norm"; call_rvs "norm";
        call_estimate_kl_divergence_continuous;
        call_fit "laplace"; call_rvs "laplace";
        call_estimate_kl_divergence_continuous]).
Proof.
  refine (proj1 (@first_acceptable_family_is_returned Scenario.acceptable
    (Scenario.rows 4) (Scenario.rows 4) default_divergence_threshold
    [Scenario.norm_stub]
    [Scenario.t_stub; Scenario.uniform_stub; Scenario.rayleigh_stub;
     Scenario.beta_stub]
    Scenario.laplace_stub
    [(Scenario.norm_stub, [Scenario.five; Scenario.two], Scenario.half)]
    [Scenario.three; Scenario.two] Scenario.one_256th
    Scenario.start
    (mkEnv 1%nat [call_fit "norm"; call_rvs "norm";
                  call_estimate_kl_divergence_continuous])
    _ eq_refl eq_refl eq_refl _ eq_refl eq_refl)).
  intros d' p' dv' [H|[]]. inversion H. reflexivity.
Defined.

(** Only the laplace family can be fitted, and its divergence is infinite:
    it is the one family fitted, yet the search returns the normal family
    with [loc = 0.0] and [scale = 1.0]. *)
Lemma infinite_divergence_is_not_returned :
  exists e1,
    @evaluations Scenario.infinite_divergence (Scenario.rows 4)
      (values _CONTINUOUS_DISTRIBUTIONS) Scenario.start
    = (Ok [(Scenario.laplace_stub, [Scenario.three; Scenario.two], inf)], e1)
    /\ @find_suitable_continuous_distribution Scenario.infinite_divergence
         (Scenario.rows 4) default_divergence_threshold Scenario.start
       = (Ok (Scenario.norm_failing, [("loc", zero); ("scale", one)]), e1).
Proof. eexists. split; reflexivity. Qed.

Lemma smallest_divergence_is_returned_witness :
  (exists e1,
      @find_suitable_continuous_distribution Scenario.none_acceptable
        (Scenario.rows 4) default_divergence_threshold Scenario.start
      = (Ok (Scenario.laplace_stub,
             [("loc", Scenario.three); ("scale", Scenario.two)]), e1))
  /\ (exists e1,
      @find_suitable_continuous_distribution Scenario.infinite_divergence
        (Scenario.rows 4) default_divergence_threshold Scenario.start
      = (Ok (Scenario.norm_failing, [("loc", zero); ("scale", one)]), e1)).
Proof.
  split.
  - eexists.
    refine (proj1 (@smallest_divergence_is_returned Scenario.none_acceptable
      (Scenario.rows 4) (Scenario.rows 4) default_divergence_threshold
      [(Scenario.norm_stub, [Scenario.five; Scenario.two], Scenario.half);
       (Scenario.laplace_stub, [Scenario.three; Scenario.two],
        Scenario.quarter);
       (Scenario.t_stub, [Scenario.three; Scenario.five; Scenario.two],
        Scenario.three_quarters);
       (Scenario.rayleigh_stub, [zero; Scenario.two],
        Scenario.three_eighths);
       (Scenario.beta_stub, [Scenario.two; Scenario.three; zero; one], one)]
      Scenario.start _ eq_refl eq_refl _)
      [(Scenario.norm_stub, [Scenario.five; Scenario.two], Scenario.half)]
      Scenario.laplace_stub [Scenario.three; Scenario.two] Scenario.quarter
      _ eq_refl eq_refl _).
    + intros d p dv H. cbn in H.
      repeat (destruct H as [H|H]; [inversion H; reflexivity|]).
      destruct H.
    + intros d p dv H. cbn in H.
      repeat (destruct H as [H|H]; [inversion H; reflexivity|]).
      destruct H.
  - eexists.
    refine (proj2 (@smallest_divergence_is_returned
      Scenario.infinite_divergence
      (Scenario.rows 4) (Scenario.rows 4) default_divergence_threshold
      [(Scenario.laplace_stub, [Scenario.three; Scenario.two], inf)]
      Scenario.start _ eq_refl eq_refl _) _ eq_refl eq_refl).
    + intros d p dv [H|[]]. inversion H. reflexivity.
    + intros d p dv [H|[]]. inversion H. reflexivity.
Defined.

Lemma empty_candidate_range_gives_one_witness :
  (@shape0 Scenario.clusters (Scenario.rows 3) < 5)%nat
  /\ @get_optimal_number_of_components Scenario.clusters (Scenario.rows 3)
       Scenario.start
     = (Ok 1, Scenario.start).
Proof.
  split.
  - cbn. lia.
  - apply (proj2 (@empty_candidate_range_gives_one Scenario.clusters)).
    cbn. lia.
Defined.

(** Eighteen rows give the single candidate 2; it is scored, its score is
    below zero, and the selection returns 1, which is no candidate. *)
Lemma nonpositive_scores_give_one :
  exists e',
    @candidate_bound Scenario.poor_clusters (Scenario.rows 18) = Ok 3
    /\ py_range 2 3 = [2]
    /\ for_list (@score_candidate Scenario.poor_clusters (Scenario.rows 18))
         [2] Scenario.start
       = (Ok [Scenario.minus_half], e')
    /\ @get_optimal_number_of_components Scenario.poor_clusters
         (Scenario.rows 18) Scenario.start
       = (Ok 1, e').
Proof. eexists. repeat split; reflexivity. Qed.

Lemma best_scoring_count_is_returned_witness :
  exists evaluated scores rest k,
    evaluated <> []
    /\ py_range 2 5 = evaluated ++ rest
    /\ for_list (@score_candidate Scenario.clusters (Scenario.rows 50))
         evaluated Scenario.start
       = (Ok scores,
          mkEnv 6%nat
            [call_KMeans_fit 2; call_silhouette_score;
             call_KMeans_fit 3; call_silhouette_score;
             call_KMeans_fit 4; call_silhouette_score])
    /\ @get_optimal_number_of_components Scenario.clusters (Scenario.rows 50)
         Scenario.start
       = (Ok k,
          mkEnv 6%nat
            [call_KMeans_fit 2; call_silhouette_score;
             call_KMeans_fit 3; call_silhouette_score;
             call_KMeans_fit 4; call_silhouette_score])
    /\ ((exists best,
            In (k, best) (combine evaluated scores)
            /\ lt zero best = true
            /\ forall c', In c' scores -> lt best c' = false)
        \/ (k = 1 /\ forall c', In c' scores -> lt zero c' = false)).
Proof.
  apply (@best_scoring_count_is_returned Scenario.clusters (Scenario.rows 50)
           5 (mk_selection Scenario.half 3 1) Exhausted Scenario.start).
  - reflexivity.
  - discriminate.
  - reflexivity.
  - discriminate.
Defined.

Lemma clustering_failure_is_absorbed_witness :
  exists scores k,
    for_list (@score_candidate Scenario.collapsing_clusters (Scenario.rows 50))
      [2] Scenario.start
    = (Ok scores, mkEnv 2%nat [call_KMeans_fit 2; call_silhouette_score])
    /\ k = 2
    /\ @get_optimal_number_of_components Scenario.collapsing_clusters
         (Scenario.rows 50) Scenario.start
       = (Ok k,
          mkEnv 4%nat
            [call_KMeans_fit 2; call_silhouette_score;
             call_KMeans_fit 3; call_silhouette_score])
    /\ ((exists best,
            In (k, best) (combine [2] scores)
            /\ lt zero best = true
            /\ forall c', In c' scores -> lt best c' = false)
        \/ (k = 1 /\ forall c', In c' scores -> lt zero c' = false)).
Proof.
  exact (proj1 (proj2 (@clustering_failure_is_absorbed
    Scenario.collapsing_clusters))
    (Scenario.rows 50) 5 [2] 3 [4]
    (mk_selection Scenario.quarter 2 0) Scenario.start
    (mkEnv 2%nat [call_KMeans_fit 2; call_silhouette_score])
    (mkEnv 4%nat [call_KMeans_fit 2; call_silhouette_score;
                  call_KMeans_fit 3; call_silhouette_score])
    "Number of labels is 1. Valid values are 2 to n_samples - 1 (inclusive)"
    eq_refl eq_refl eq_refl eq_refl).
Defined.

(** ** More on dicts *)

Lemma keys_set {V} (k : string) (v : V) (d : dict V) :
  keys (PyDict.set k v d) = if contains k d then keys d else keys d ++ [k].
Proof.
  destruct (contains k d) eqn:E.
  - unfold contains in E. induction d as [|[k' v'] d IH]; cbn in *.
    + discriminate.
    + destruct (String.eqb_spec k k') as [->|Hne]; cbn in *; trivial.
      f_equal. now apply IH.
  - apply keys_set_fresh. intros Hin. apply contains_In in Hin. congruence.
Qed.

Lemma NoDup_keys_set {V} (k : string) (v : V) (d : dict V) :
  NoDup (keys d) -> NoDup (keys (PyDict.set k v d)).
Proof.
  intros H. rewrite keys_set. destruct (contains k d) eqn:E; trivial.
  apply NoDup_app; trivial.
  - repeat constructor. intros [].
  - intros x Hx [<-|[]]. apply contains_In in Hx. congruence.
Qed.

Lemma NoDup_keys_fold {V} (key : V -> string) (xs : list V) :
  forall acc : dict V,
    NoDup (keys acc) ->
    NoDup (keys (fold_left (fun d x => PyDict.set (key x) x d) xs acc)).
Proof.
  induction xs as [|x xs IH]; cbn; intros acc H; trivial.
  apply IH. now apply NoDup_keys_set.
Qed.

Lemma keys_fold_prefix {V} (key : V -> string) (xs : list V) :
  forall acc : dict V,
    exists l,
      keys (fold_left (fun d x => PyDict.set (key x) x d) xs acc)
      = keys acc ++ l.
Proof.
  induction xs as [|x xs IH]; intros acc.
  - exists []. now rewrite app_nil_r.
  - destruct (IH (PyDict.set (key x) x acc)) as (l & Hl).
    rewrite keys_set in Hl.
    destruct (contains (key x) acc).
    + now exists l.
    + exists (key x :: l). change (fold_left _ (x :: xs) acc)
        with (fold_left (fun d x0 => PyDict.set (key x0) x0 d) xs
                        (PyDict.set (key x) x acc)).
      now rewrite Hl, <- app_assoc.
Qed.

Lemma keys_fold_fresh {V} (key : V -> string) (xs : list V) :
  forall acc : dict V,
    NoDup (keys acc ++ map key xs) ->
    keys (fold_left (fun d x => PyDict.set (key x) x d) xs acc)
    = keys acc ++ map key xs.
Proof.
  induction xs as [|x xs IH]; intros acc H.
  - cbn. now rewrite app_nil_r.
  - change (fold_left _ (x :: xs) acc)
      with (fold_left (fun d x0 => PyDict.set (key x0) x0 d) xs
                      (PyDict.set (key x) x acc)).
    change (map key (x :: xs)) with (key x :: map key xs) in *.
    assert (Hfresh : ~ In (key x) (keys acc)).
    { intros Hin. apply NoDup_remove_2 in H. apply H.
      apply in_or_app. now left. }
    rewrite IH.
    + rewrite keys_set_fresh by exact Hfresh. now rewrite <- app_assoc.
    + rewrite keys_set_fresh by exact Hfresh. rewrite <- app_assoc. exact H.
Qed.

Lemma get_set {V} (k k' : string) (v : V) (d : dict V) :
  get k' (PyDict.set k v d) = if String.eqb k' k then Some v else get k' d.
Proof.
  induction d as [|[k0 v0] d IH]; cbn.
  - reflexivity.
  - destruct (String.eqb_spec k k0) as [->|Hne]; cbn.
    + now destruct (String.eqb k' k0).
    + rewrite IH. destruct (String.eqb_spec k' k0) as [->|Hne'].
      * destruct (String.eqb_spec k0 k) as [->|]; [now destruct Hne | trivial].
      * reflexivity.
Qed.

Lemma get_In {V} (k : string) (v : V) (d : dict V) :
  get k d = Some v -> In (k, v) d.
Proof.
  induction d as [|[k0 v0] d IH]; cbn; [discriminate|].
  destruct (String.eqb_spec k k0) as [->|Hne].
  - intros H. inversion H. now left.
  - intros H. right. now apply IH.
Qed.

Lemma In_get {V} (k : string) (v : V) (d : dict V) :
  NoDup (keys d) -> In (k, v) d -> get k d = Some v.
Proof.
  induction d as [|[k0 v0] d IH]; cbn; intros Hnd Hin; [destruct Hin|].
  inversion Hnd as [|? ? Hfresh Hnd']. subst.
  destruct Hin as [H|H].
  - inversion H. subst. now rewrite String.eqb_refl.
  - destruct (String.eqb_spec k k0) as [->|Hne].
    + destruct Hfresh. change (In (fst (k0, v)) (map fst d)). now apply in_map.
    + now apply IH.
Qed.

Lemma find_app {A} (f : A -> bool) (l1 l2 : list A) :
  find f (l1 ++ l2)
  = match find f l1 with Some a => Some a | None => find f l2 end.
Proof.
  induction l1 as [|a l1 IH]; cbn; trivial. now destruct (f a).
Qed.

(** Looking a key up in [{key(x): x for x in xs}] gives the last element of
    [xs] that has this key. *)
Lemma get_fold {V} (key : V -> string) (k : string) (xs : list V) :
  forall acc : dict V,
    get k (fold_left (fun d x => PyDict.set (key x) x d) xs acc)
    = match find (fun x => String.eqb k (key x)) (rev xs) with
      | Some x => Some x
      | None => get k acc
      end.
Proof.
  induction xs as [|x xs IH]; cbn; intros acc; trivial.
  rewrite IH, find_app, get_set. cbn.
  destruct (find (fun x0 => String.eqb k (key x0)) (rev xs)); trivial.
  now destruct (String.eqb k (key x)).
Qed.

Lemma values_entries {V} (v : V) (d : dict V) :
  In v (values d) <-> exists k, In (k, v) d.
Proof.
  unfold values. rewrite in_map_iff. split.
  - intros ([k v'] & Hv & Hin). cbn in Hv. subst. now exists k.
  - intros (k & Hin). now exists (k, v).
Qed.

Lemma comprehension_NoDup {V} (key : V -> string) (xs : list V) :
  NoDup (keys (comprehension key xs)).
Proof. apply NoDup_keys_fold. constructor. Qed.

Lemma comprehension_last {V} (key : V -> string) (xs : list V) (v : V) :
  In v (values (comprehension key xs))
  <-> find (fun x => String.eqb (key v) (key x)) (rev xs) = Some v.
Proof.
  rewrite values_entries. split.
  - intros (k & Hin).
    destruct (comprehension_entries _ _ _ Hin) as (Hk & _). cbn in Hk. subst k.
    apply In_get in Hin; [|apply comprehension_NoDup].
    unfold comprehension in Hin. rewrite get_fold in Hin. cbn in Hin.
    destruct (find (fun x => String.eqb (key v) (key x)) (rev xs));
      [exact Hin | discriminate].
  - intros H. exists (key v). apply get_In.
    unfold comprehension. now rewrite get_fold, H.
Qed.

Section Coverage.

Context {C : Collaborators}.

(** ** The catalogs *)

Lemma rv_class_eqb_eq (a b : rv_class) : rv_class_eqb a b = true <-> a = b.
Proof. destruct a, b; cbn; split; trivial; discriminate. Qed.

Lemma rv_attributes_In (keep : string -> pyobj World ndarray -> bool)
    (x : family) :
  In x (rv_attributes keep)
  <-> exists a, In (a, py_rv x) scipy_stats /\ keep a (py_rv x) = true.
Proof.
  unfold rv_attributes. rewrite in_flat_map. split.
  - intros ([a o] & Hin & Hx). cbn in Hx. destruct o as [d|]; [|destruct Hx].
    destruct (keep a (py_rv d)) eqn:E; [|destruct Hx].
    destruct Hx as [->|[]]. now exists a.
  - intros (a & Hin & Hk). exists (a, py_rv x). split; trivial.
    cbn. rewrite Hk. now left.
Qed.

(** X1.  Both catalogs hold every family under its own name, and no name
    twice. *)
Theorem catalogs_keyed_by_name :
  NoDup (keys _CONTINUOUS_DISTRIBUTIONS)
  /\ NoDup (keys _DISCRETE_DISTRIBUTIONS)
  /\ (forall k d, In (k, d) _CONTINUOUS_DISTRIBUTIONS -> k = name d)
  /\ (forall k d, In (k, d) _DISCRETE_DISTRIBUTIONS -> k = name d).
Proof.
  split; [apply comprehension_NoDup|]. split; [apply comprehension_NoDup|].
  split; intros k d H; apply comprehension_entries in H; apply H.
Qed.

(** X2.  The members of the discrete catalog are discrete attributes of
    [scipy.stats]; the members of the continuous catalog are the five named
    families and continuous attributes of [scipy.stats].  Conversely the name
    of every discrete attribute is in the discrete catalog, and the name of
    every continuous attribute and of each of the five families is in the
    continuous catalog: the test [d not in _CONTINUOUS_DISTRIBUTIONS] of
    line 29 leaves no attribute out. *)
Theorem catalog_members :
  (forall d, In d (values _DISCRETE_DISTRIBUTIONS) ->
             kind d = rv_discrete /\ exists a, In (a, py_rv d) scipy_stats)
  /\ (forall d, In d (values _CONTINUOUS_DISTRIBUTIONS) ->
                In d continuous_seed
                \/ (kind d = rv_continuous
                    /\ exists a, In (a, py_rv d) scipy_stats))
  /\ (forall a d, In (a, py_rv d) scipy_stats -> kind d = rv_discrete ->
                  contains (name d) _DISCRETE_DISTRIBUTIONS = true)
  /\ (forall a d, In (a, py_rv d) scipy_stats -> kind d = rv_continuous ->
                  contains (name d) _CONTINUOUS_DISTRIBUTIONS = true)
  /\ (forall d, In d continuous_seed ->
                contains (name d) _CONTINUOUS_DISTRIBUTIONS = true).
Proof.
  repeat split.
  - apply values_entries in H. destruct H as (k & H).
    apply comprehension_entries in H. destruct H as (_ & H). cbn in H.
    apply rv_attributes_In in H. destruct H as (a & _ & H).
    now apply rv_class_eqb_eq in H.
  - apply values_entries in H. destruct H as (k & H).
    apply comprehension_entries in H. destruct H as (_ & H). cbn in H.
    apply rv_attributes_In in H. destruct H as (a & H & _). now exists a.
  - intros d H. apply values_entries in H. destruct H as (k & H).
    apply comprehension_entries in H. destruct H as (_ & H). cbn [snd] in H.
    apply in_app_or in H. destruct H as [H|H]; [now left | right].
    apply rv_attributes_In in H. destruct H as (a & Hin & H).
    apply andb_true_iff in H. destruct H as (H & _).
    apply rv_class_eqb_eq in H. split; trivial. now exists a.
  - intros a d Hin Hk. apply comprehension_contains.
    apply rv_attributes_In. exists a. split; trivial.
    cbn. now apply rv_class_eqb_eq.
  - intros a d Hin Hk. apply comprehension_contains.
    apply in_or_app. right. apply rv_attributes_In. exists a. split; trivial.
    cbn. apply andb_true_iff. split; [now apply rv_class_eqb_eq | reflexivity].
  - intros d H. apply comprehension_contains. apply in_or_app. now left.
Qed.

(** X3.  When the five named families bear five different names, the
    continuous catalog starts with these names, in the order norm, laplace,
    t, uniform, rayleigh: the search tries these families first. *)
Theorem seed_families_come_first :
  NoDup (map (@name _ _) continuous_seed) ->
  firstn 5 (keys _CONTINUOUS_DISTRIBUTIONS)
  = [name norm; name laplace; name t; name uniform; name rayleigh].
Proof.
  intros H. unfold _CONTINUOUS_DISTRIBUTIONS, comprehension, continuous_list.
  rewrite fold_left_app.
  destruct (keys_fold_prefix (@name _ _)
              (rv_attributes (fun d o => isinstance o rv_continuous
                 && negb (str_in_rv_list d continuous_seed)))
              (fold_left (fun d x => PyDict.set (name x) x d)
                         continuous_seed [])) as (l & Hl).
  rewrite Hl, keys_fold_fresh by exact H. reflexivity.
Qed.

(** X4.  A family is a member of the continuous catalog exactly when it is
    the last object of the list the catalog is built from that bears its
    name: of two objects with one name the catalog keeps the later one. *)
Theorem catalog_keeps_last_of_a_name (d : family) :
  In d (values _CONTINUOUS_DISTRIBUTIONS)
  <-> find (fun x => String.eqb (name d) (name x)) (rev continuous_list)
      = Some d.
Proof. apply comprehension_last. Qed.

(** ** Naming the parameters: the outcomes *)

Lemma nth_error_firstn_lt {A} (l : list A) :
  forall n i : nat, (i < n)%nat -> nth_error (firstn n l) i = nth_error l i.
Proof.
  induction l as [|a l IH]; intros [|n] [|i] H; cbn; trivial; try lia.
  apply IH. lia.
Qed.

Lemma name_parameters_short (raw : list float) (names : list string) :
  forall (i : nat) (acc : dict float),
    (i <= List.length raw)%nat ->
    (List.length raw < i + List.length names)%nat ->
    name_parameters i names raw acc
    = Raise (IndexError "tuple index out of range").
Proof.
  induction names as [|k names IH]; cbn; intros i acc Hi Hlen; [lia|].
  destruct (nth_error raw i) as [v|] eqn:Hv; trivial.
  apply IH.
  - assert (i < List.length raw)%nat by (apply nth_error_Some; congruence).
    lia.
  - lia.
Qed.

Lemma name_parameters_long (raw : list float) (names : list string) :
  forall (i : nat) (acc : dict float),
    (i + List.length names <= List.length raw)%nat ->
    exists named, name_parameters i names raw acc = Ok named.
Proof.
  induction names as [|k names IH]; cbn; intros i acc Hlen.
  - now exists acc.
  - destruct (nth_error raw i) as [v|] eqn:Hv.
    + apply IH. lia.
    + apply nth_error_None in Hv. lia.
Qed.

Lemma name_parameters_firstn (raw : list float) (names : list string) :
  forall (i m : nat) (acc : dict float),
    (i + List.length names <= m)%nat ->
    name_parameters i names (firstn m raw) acc
    = name_parameters i names raw acc.
Proof.
  induction names as [|k names IH]; cbn; intros i m acc Hlen; trivial.
  rewrite nth_error_firstn_lt by lia.
  destruct (nth_error raw i); trivial. apply IH. lia.
Qed.

(** X5.  Naming a raw tuple for a family has three outcomes.  For a family
    whose name is in neither catalog it raises a [ValueError].  For a family
    whose name is in a catalog it raises an [IndexError] when the tuple is
    shorter than the list of names, and otherwise succeeds, ignoring the
    values beyond the names. *)
Theorem parameter_naming_outcomes (d : family) (raw : list float) :
  let names :=
    shape_names d ++
    (if contains (name d) _DISCRETE_DISTRIBUTIONS then ["loc"]
     else ["loc"; "scale"]) in
  (contains (name d) _DISCRETE_DISTRIBUTIONS = false ->
   contains (name d) _CONTINUOUS_DISTRIBUTIONS = false ->
   exists msg,
     map_scipy_distribution_parameters_to_names d raw = Raise (ValueError msg))
  /\ (contains (name d) _DISCRETE_DISTRIBUTIONS = true
      \/ contains (name d) _CONTINUOUS_DISTRIBUTIONS = true ->
      (List.length raw < List.length names)%nat ->
      map_scipy_distribution_parameters_to_names d raw
      = Raise (IndexError "tuple index out of range"))
  /\ (contains (name d) _DISCRETE_DISTRIBUTIONS = true
      \/ contains (name d) _CONTINUOUS_DISTRIBUTIONS = true ->
      (List.length names <= List.length raw)%nat ->
      exists named,
        map_scipy_distribution_parameters_to_names d raw = Ok named
        /\ map_scipy_distribution_parameters_to_names d
             (firstn (List.length names) raw) = Ok named).
Proof.
  unfold map_scipy_distribution_parameters_to_names. cbv zeta.
  split; [|split].
  - intros -> ->. eexists. reflexivity.
  - intros Hreg Hlen.
    destruct (contains (name d) _DISCRETE_DISTRIBUTIONS).
    + apply name_parameters_short; [lia | exact Hlen].
    + destruct Hreg as [Hreg|Hreg]; [discriminate|]. rewrite Hreg.
      apply name_parameters_short; [lia | exact Hlen].
  - intros Hreg Hlen.
    destruct (contains (name d) _DISCRETE_DISTRIBUTIONS).
    + rewrite name_parameters_firstn by lia.
      destruct (name_parameters_long raw _ 0 [] Hlen) as (named & H).
      exists named. now split.
    + destruct Hreg as [Hreg|Hreg]; [discriminate|]. rewrite Hreg.
      rewrite name_parameters_firstn by lia.
      destruct (name_parameters_long raw _ 0 [] Hlen) as (named & H).
      exists named. now split.
Qed.

(** ** The search: failures *)

(** X6.  In the evaluation of a family only a [ValueError] of the family's
    [fit] is absorbed: the family is skipped after this one call.  Any other
    exception of [fit], and any exception of [rvs] or of the divergence
    estimator, a [ValueError] included, leaves the evaluation. *)
Theorem only_fit_value_errors_are_skipped (X : ndarray) (d : family)
    (e : Env World) :
  (forall msg w,
      fit d X (world e) = (Raise (ValueError msg), w) ->
      evaluate_family X d e
      = (Ok None, mkEnv w (calls e ++ [call_fit (name d)])))
  /\ (forall x w,
      fit d X (world e) = (Raise x, w) ->
      (forall msg, x <> ValueError msg) ->
      evaluate_family X d e
      = (Raise x, mkEnv w (calls e ++ [call_fit (name d)])))
  /\ (forall params loc scale x w1 w2,
      fit d X (world e) = (Ok params, w1) ->
      tuple_get params (-2) = Ok loc ->
      tuple_get params (-1) = Ok scale ->
      rvs d (tuple_drop_last2 params) (Z.of_nat (shape0 X))
          [("loc", loc); ("scale", scale)] w1 = (Raise x, w2) ->
      evaluate_family X d e
      = (Raise x,
         mkEnv w2 (calls e ++ [call_fit (name d); call_rvs (name d)])))
  /\ (forall params loc scale generated x w1 w2 w3,
      fit d X (world e) = (Ok params, w1) ->
      tuple_get params (-2) = Ok loc ->
      tuple_get params (-1) = Ok scale ->
      rvs d (tuple_drop_last2 params) (Z.of_nat (shape0 X))
          [("loc", loc); ("scale", scale)] w1 = (Ok generated, w2) ->
      estimate_kl_divergence_continuous X generated w2 = (Raise x, w3) ->
      evaluate_family X d e
      = (Raise x,
         mkEnv w3 (calls e ++ [call_fit (name d); call_rvs (name d);
                               call_estimate_kl_divergence_continuous]))).
Proof.
  unfold evaluate_family, try_except_ValueError, rv_fit, rv_rvs, kl_divergence,
    external, bind, lift, ret.
  split; [|split; [|split]].
  - intros msg w ->. reflexivity.
  - intros x w -> Hx. destruct x; trivial. now destruct (Hx msg).
  - intros params loc scale x w1 w2 -> -> ->. cbn. intros ->. cbn.
    now rewrite <- app_assoc.
  - intros params loc scale generated x w1 w2 w3 -> -> ->. cbn.
    intros ->. cbn. intros ->. cbn. now rewrite <- !app_assoc.
Qed.

(** X7.  An exception that leaves the evaluation of a family leaves the
    search: when the families before [d] were evaluated, none below the
    threshold, and the evaluation of [d] raises, the search raises the same
    exception and evaluates no later family. *)
Theorem search_failure_propagates (samples X : ndarray) (thr : float)
    (before after : list family) (d : family)
    (evs : list (family * list float * float)) (x : exn)
    (e e1 e2 : Env World) :
  shape_into_2d samples = Ok X ->
  values _CONTINUOUS_DISTRIBUTIONS = before ++ d :: after ->
  evaluations X before e = (Ok evs, e1) ->
  (forall d' p' dv', In (d', p', dv') evs -> lt dv' thr = false) ->
  evaluate_family X d e1 = (Raise x, e2) ->
  find_suitable_continuous_distribution samples thr e = (Raise x, e2).
Proof.
  intros HX Hcat Hbefore Hnone Hd.
  unfold find_suitable_continuous_distribution.
  unfold bind at 1, lift at 1. rewrite HX.
  unfold bind at 1, for_each. rewrite Hcat, for_loop_app.
  rewrite (search_exhausts X thr before search_init e Hbefore Hnone). cbn.
  unfold search_body at 1, bind at 1. now rewrite Hd.
Qed.

(** ** The search: what it returns *)

Lemma search_loop_best (X : ndarray) (thr : float) (ds : list family) :
  forall (s s' : search) (c : completion) (e e' : Env World),
    for_loop (search_body X thr) ds s e = ((s', c), e') ->
    currently_best_distribution s' = currently_best_distribution s
    \/ In (currently_best_distribution s') ds.
Proof.
  induction ds as [|d ds IH]; cbn; intros s s' c e e' H.
  - inversion H. now left.
  - unfold search_body at 1, bind at 1 in H.
    destruct (evaluate_family X d e) as [[[[params dv]|]|x] e1].
    + destruct (lt dv thr).
      * cbn in H. inversion H. right. now left.
      * destruct (gt (currently_smallest_divergence s) dv); cbn in H.
        -- destruct (IH _ _ _ _ _ H) as [H'|H']; right;
             [left; now rewrite H' | now right].
        -- destruct (IH _ _ _ _ _ H) as [H'|H']; [now left | right; now right].
    + cbn in H. destruct (IH _ _ _ _ _ H) as [H'|H'];
        [now left | right; now right].
    + inversion H. now left.
Qed.

(** X8.  The family a search returns is the normal family or a member of the
    continuous catalog, and in both cases its name is in the continuous
    catalog. *)
Theorem search_returns_registered_family (samples : ndarray) (thr : float)
    (d : family) (named : dict float) (e e' : Env World) :
  find_suitable_continuous_distribution samples thr e = (Ok (d, named), e') ->
  (d = norm \/ In d (values _CONTINUOUS_DISTRIBUTIONS))
  /\ contains (name d) _CONTINUOUS_DISTRIBUTIONS = true.
Proof.
  unfold find_suitable_continuous_distribution.
  unfold bind at 1, lift at 1.
  destruct (shape_into_2d samples) as [X|x]; [|discriminate].
  unfold bind at 1, for_each.
  destruct (for_loop (search_body X thr) (values _CONTINUOUS_DISTRIBUTIONS)
                     search_init e) as [[s c] e1] eqn:Hloop.
  assert (Hs : currently_best_distribution s = norm
               \/ In (currently_best_distribution s)
                     (values _CONTINUOUS_DISTRIBUTIONS))
    by exact (search_loop_best _ _ _ _ _ Hloop).
  assert (Hd : forall r,
    (named0 <- lift (map_scipy_distribution_parameters_to_names
                       (currently_best_distribution s)
                       (currently_best_parameters s)) ;;
     ret (currently_best_distribution s, named0)) e1 = r ->
    r = (Ok (d, named), e') -> d = currently_best_distribution s).
  { intros r <-. unfold bind, lift, ret.
    destruct (map_scipy_distribution_parameters_to_names _ _);
      intros H; now inversion H. }
  intros H.
  assert (d = currently_best_distribution s) as ->.
  { destruct c as [| |x]; [eapply Hd; [reflexivity | exact H] ..|discriminate]. }
  split; trivial.
  destruct Hs as [->|Hs].
  - apply norm_is_continuous.
  - now apply registered_contains.
Qed.

Lemma keep_smaller_above_or_nan (dv : float) evs :
  forall s : search,
    (forall d' p' dv', In (d', p', dv') evs ->
                       lt dv dv' = true \/ is_nan dv' = true) ->
    lt dv (currently_smallest_divergence s) = true ->
    lt dv (currently_smallest_divergence (fold_left keep_smaller evs s)) = true.
Proof.
  induction evs as [|[[d' p'] dv'] evs IH]; cbn; intros s Hall Hs; trivial.
  apply IH.
  - intros d2 p2 dv2 Hin. apply (Hall d2 p2 dv2). now right.
  - destruct (Hall d' p' dv') as [H|H]; [now left | |].
    + destruct (gt (currently_smallest_divergence s) dv'); cbn; trivial.
    + destruct dv'; try discriminate. cbn. exact Hs.
Qed.

Lemma keep_smaller_earliest before d p dv after :
  lt dv inf = true ->
  (forall d' p' dv', In (d', p', dv') before ->
                     lt dv dv' = true \/ is_nan dv' = true) ->
  (forall d' p' dv', In (d', p', dv') after -> lt dv' dv = false) ->
  fold_left keep_smaller (before ++ (d, p, dv) :: after) search_init
  = mk_search d p dv.
Proof.
  intros Hinf Hbefore Hafter. rewrite fold_left_app. cbn.
  unfold gt at 1. rewrite keep_smaller_above_or_nan; trivial.
  now apply keep_smaller_unchanged.
Qed.

(** X9.  Ties go to the earlier family.  Suppose every family of the
    continuous catalog was evaluated and none is below the threshold.  A
    family whose divergence is below infinity, strictly smaller than every
    earlier divergence that is a number, and not strictly above any later
    one, is returned with its fitted parameters, named. *)
Theorem earliest_smallest_divergence_is_returned (samples X : ndarray)
    (thr : float) (before after : list (family * list float * float))
    (d : family) (p : list float) (dv : float) (e e1 : Env World) :
  shape_into_2d samples = Ok X ->
  evaluations X (values _CONTINUOUS_DISTRIBUTIONS) e
  = (Ok (before ++ (d, p, dv) :: after), e1) ->
  (forall d' p' dv', In (d', p', dv') (before ++ (d, p, dv) :: after) ->
                     lt dv' thr = false) ->
  lt dv inf = true ->
  (forall d' p' dv', In (d', p', dv') before ->
                     lt dv dv' = true \/ is_nan dv' = true) ->
  (forall d' p' dv', In (d', p', dv') after -> lt dv' dv = false) ->
  find_suitable_continuous_distribution samples thr e
  = (named_result d p, e1).
Proof.
  intros HX Hevs Hnone Hinf Hbefore Hafter.
  unfold find_suitable_continuous_distribution.
  unfold bind at 1, lift at 1. rewrite HX.
  unfold bind at 1, for_each.
  rewrite (search_exhausts X thr _ search_init e Hevs Hnone).
  rewrite (keep_smaller_earliest _ _ _ _ _ Hinf Hbefore Hafter).
  apply named_result_bind.
Qed.

(** ** The models after [fit] *)

Lemma set_nonempty {V} (k : string) (v : V) (d : dict V) :
  PyDict.set k v d <> [].
Proof.
  destruct d as [|[k' v'] d]; cbn; [discriminate|].
  destruct (String.eqb k k'); discriminate.
Qed.

Lemma name_parameters_nonempty (raw : list float) (names : list string) :
  forall (i : nat) (acc named : dict float),
    name_parameters i names raw acc = Ok named ->
    names <> [] \/ acc <> [] ->
    named <> [].
Proof.
  induction names as [|k names IH]; cbn; intros i acc named H Hne.
  - inversion H. subst. destruct Hne as [Hne|Hne]; trivial. now destruct Hne.
  - destruct (nth_error raw i) as [v|]; [|discriminate].
    apply (IH _ _ _ H). right. apply set_nonempty.
Qed.

Lemma named_parameters_nonempty (d : family) (raw : list float)
    (named : dict float) :
  map_scipy_distribution_parameters_to_names d raw = Ok named -> named <> [].
Proof.
  unfold map_scipy_distribution_parameters_to_names.
  destruct (contains (name d) _DISCRETE_DISTRIBUTIONS).
  - intros H. eapply name_parameters_nonempty; [exact H|]. left.
    now destruct (shape_names d).
  - destruct (contains (name d) _CONTINUOUS_DISTRIBUTIONS); [|discriminate].
    intros H. eapply name_parameters_nonempty; [exact H|]. left.
    now destruct (shape_names d).
Qed.

Lemma name_parameters_keys_of_result (raw : list float) (names : list string) :
  forall (i : nat) (acc named : dict float),
    name_parameters i names raw acc = Ok named ->
    NoDup (keys acc ++ names) ->
    keys named = keys acc ++ names.
Proof.
  induction names as [|k names IH]; cbn; intros i acc named H Hnd.
  - inversion H. now rewrite app_nil_r.
  - destruct (nth_error raw i) as [v|]; [|discriminate].
    assert (Hfresh : ~ In k (keys acc)).
    { intros Hin. apply NoDup_remove_2 in Hnd. apply Hnd.
      apply in_or_app. now left. }
    rewrite (IH _ _ _ H); rewrite keys_set_fresh by exact Hfresh;
      rewrite <- app_assoc; trivial.
Qed.

Lemma named_parameters_keys (d : family) (raw : list float)
    (named : dict float) :
  map_scipy_distribution_parameters_to_names d raw = Ok named ->
  NoDup (shape_names d ++
         (if contains (name d) _DISCRETE_DISTRIBUTIONS then ["loc"]
          else ["loc"; "scale"])) ->
  keys named
  = shape_names d ++
    (if contains (name d) _DISCRETE_DISTRIBUTIONS then ["loc"]
     else ["loc"; "scale"]).
Proof.
  unfold map_scipy_distribution_parameters_to_names.
  destruct (contains (name d) _DISCRETE_DISTRIBUTIONS).
  - intros H Hnd.
    change (keys named = keys (@nil (string * float)) ++ (shape_names d ++ ["loc"])).
    eapply name_parameters_keys_of_result; eassumption.
  - destruct (contains (name d) _CONTINUOUS_DISTRIBUTIONS); [|discriminate].
    intros H Hnd.
    change (keys named
            = keys (@nil (string * float)) ++ (shape_names d ++ ["loc"; "scale"])).
    eapply name_parameters_keys_of_result; eassumption.
Qed.

(** The parameters a search returns were named for the family it returns. *)
Lemma search_result_is_named (samples : ndarray) (thr : float) (d : family)
    (named : dict float) (e e' : Env World) :
  find_suitable_continuous_distribution samples thr e = (Ok (d, named), e') ->
  exists raw, map_scipy_distribution_parameters_to_names d raw = Ok named.
Proof.
  unfold find_suitable_continuous_distribution.
  unfold bind at 1, lift at 1.
  destruct (shape_into_2d samples) as [X|x]; [|discriminate].
  unfold bind at 1, for_each.
  destruct (for_loop (search_body X thr) (values _CONTINUOUS_DISTRIBUTIONS)
                     search_init e) as [[s c] e1].
  assert (Hd : forall r,
    (named0 <- lift (map_scipy_distribution_parameters_to_names
                       (currently_best_distribution s)
                       (currently_best_parameters s)) ;;
     ret (currently_best_distribution s, named0)) e1 = r ->
    r = (Ok (d, named), e') ->
    exists raw, map_scipy_distribution_parameters_to_names d raw = Ok named).
  { intros r <-. unfold bind, lift, ret.
    destruct (map_scipy_distribution_parameters_to_names _ _) eqn:E;
      intros H; inversion H. subst. now exists (currently_best_parameters s). }
  intros H.
  destruct c as [| |x]; [eapply Hd; [reflexivity | exact H] ..|discriminate].
Qed.

(** What [fit] leaves in a [ScipyDistribution] constructed without
    parameters: a family, and parameters named for it. *)
Lemma fit_names_parameters (d0 : option family) (X : ndarray)
    (fitted : ScipyDistribution) (e e' : Env World) :
  ScipyDistribution_fit (ScipyDistribution_init d0 []) X e = (Ok fitted, e') ->
  exists d raw,
    distribution fitted = Some d
    /\ (d0 = None \/ d0 = Some d)
    /\ map_scipy_distribution_parameters_to_names d raw
       = Ok (parameters fitted).
Proof.
  unfold ScipyDistribution_fit.
  destruct d0 as [d|].
  - change (ScipyDistribution_init (Some d) [])
      with (mk_ScipyDistribution (Some d) [] false).
    cbn [distribution fixed_parameters negb]. unfold bind, lift, ret.
    destruct (shape_into_2d X) as [X2|x]; [|discriminate].
    destruct (rv_fit d X2 e) as [[raw|x] e1]; [|discriminate].
    destruct (map_scipy_distribution_parameters_to_names d raw)
      as [named|x] eqn:E; [|discriminate].
    intros H. inversion H. cbn. exists d, raw. repeat split; auto.
  - change (ScipyDistribution_init None [])
      with (mk_ScipyDistribution None [] false).
    cbn [distribution fixed_parameters]. unfold bind, ret.
    destruct (find_suitable_continuous_distribution X
                default_divergence_threshold e) as [[[best named]|x] e1] eqn:E;
      [|discriminate].
    intros H. inversion H. cbn.
    pose proof E as Hraw0. apply search_result_is_named in Hraw0.
    destruct Hraw0 as (raw & Hraw).
    exists best, raw. repeat split; auto.
Qed.

(** X10.  After a successful [fit] no model raises the not-fitted error: a
    [ScipyDistribution], however constructed, holds a family and draws from
    it with the parameters it holds; an [EmpiricalDistribution] holds the
    two-dimensional data and selects rows of it; a
    [BayesianGaussianMixtureDistribution] holds a mixture and samples it. *)
Theorem fitted_models_draw :
  (forall d0 params X e fitted e',
      ScipyDistribution_fit (ScipyDistribution_init d0 params) X e
      = (Ok fitted, e') ->
      exists d,
        distribution fitted = Some d
        /\ forall n e2,
            ScipyDistribution_draw_samples fitted n e2
            = (samples <- rv_rvs d [] n (parameters fitted) ;;
               lift (shape_into_2d samples)) e2)
  /\ (forall self X e fitted e',
      EmpiricalDistribution_fit self X e = (Ok fitted, e') ->
      exists rows,
        shape_into_2d X = Ok rows
        /\ data fitted = Some rows
        /\ forall n e2,
            EmpiricalDistribution_draw_samples fitted n e2
            = (idx <- external call_random_choice
                               (random_choice (shape0 rows) n) ;;
               lift (take_rows rows idx)) e2)
  /\ (forall self X e fitted e',
      BayesianGaussianMixtureDistribution_fit self X e = (Ok fitted, e') ->
      exists g,
        gmm_model fitted = Some g
        /\ forall n e2,
            BayesianGaussianMixtureDistribution_draw_samples fitted n e2
            = (sampled <- external call_gmm_sample (gmm_sample g n) ;;
               lift (shape_into_2d (fst sampled))) e2).
Proof.
  split; [|split].
  - intros d0 [|p ps] X e fitted e' H.
    + pose proof H as H0. apply fit_names_parameters in H0.
      destruct H0 as (d & raw & Hd & _ & Hraw).
      exists d. split; trivial. intros n e2.
      unfold ScipyDistribution_draw_samples. rewrite Hd.
      apply named_parameters_nonempty in Hraw.
      destruct (parameters fitted); [now destruct Hraw | reflexivity].
    + destruct d0 as [d|].
      * cbn in H. inversion H. exists d. split; reflexivity.
      * unfold ScipyDistribution_fit in H.
        cbn [ScipyDistribution_init distribution fixed_parameters] in H.
        unfold bind, ret in H.
        destruct (find_suitable_continuous_distribution X
                    default_divergence_threshold e)
          as [[[best named]|x] e1] eqn:E; [|discriminate].
        inversion H. exists best. split; trivial. intros n e2.
        pose proof E as Hraw0. apply search_result_is_named in Hraw0.
    destruct Hraw0 as (raw & Hraw).
        apply named_parameters_nonempty in Hraw.
        unfold ScipyDistribution_draw_samples. cbn.
        destruct named; [now destruct Hraw | reflexivity].
  - intros self X e fitted e'.
    unfold EmpiricalDistribution_fit, bind, lift, ret.
    destruct (shape_into_2d X) as [rows|x]; [|discriminate].
    intros H. inversion H. exists rows. repeat split.
  - intros self X e fitted e'.
    unfold BayesianGaussianMixtureDistribution_fit, bind, lift, ret.
    destruct (shape_into_2d X) as [X2|x]; [|discriminate].
    destruct (get_optimal_number_of_components X2 e) as [[k|x] e1];
      [|discriminate].
    destruct (external _ _ e1) as [[g|x] e2]; [|discriminate].
    intros H. inversion H. exists g. repeat split.
Qed.

(** X11.  Cloning a [ScipyDistribution] twice gives what cloning it once
    gives. *)
Theorem clone_of_clone (self : ScipyDistribution) :
  ScipyDistribution_clone (ScipyDistribution_clone self)
  = ScipyDistribution_clone self.
Proof.
  destruct self as [d ps fixed]. unfold ScipyDistribution_clone. cbn.
  destruct fixed; cbn; [|reflexivity].
  now destruct ps.
Qed.

(** X12.  After a successful [fit] of a [ScipyDistribution] constructed
    without parameters, the model holds the pinned family, or a family chosen
    by the search when none was pinned, and the keys of its parameters are
    that family's declared shape-parameter names followed by [loc] for a name
    of the discrete catalog and by [loc, scale] otherwise (the names being
    distinct). *)
Theorem fitted_parameters_follow_family (d0 : option family) (X : ndarray)
    (fitted : ScipyDistribution) (e e' : Env World) :
  ScipyDistribution_fit (ScipyDistribution_init d0 []) X e = (Ok fitted, e') ->
  exists d,
    distribution fitted = Some d
    /\ (d0 = None \/ d0 = Some d)
    /\ (NoDup (shape_names d ++
               (if contains (name d) _DISCRETE_DISTRIBUTIONS then ["loc"]
                else ["loc"; "scale"])) ->
        keys (parameters fitted)
        = shape_names d ++
          (if contains (name d) _DISCRETE_DISTRIBUTIONS then ["loc"]
           else ["loc"; "scale"])).
Proof.
  intros H.
  pose proof H as H0. apply fit_names_parameters in H0.
  destruct H0 as (d & raw & Hd & Hd0 & Hraw).
  exists d. repeat split; trivial.
  now apply named_parameters_keys with (raw := raw).
Qed.

(** X13.  On an array of fewer than 18 rows, fitting a
    [BayesianGaussianMixtureDistribution] fits a mixture of one component
    with at most 1000 iterations and does no clustering. *)
Theorem small_arrays_get_one_component
    (self : BayesianGaussianMixtureDistribution) (X X2 : ndarray)
    (e : Env World) :
  shape_into_2d X = Ok X2 ->
  (shape0 X2 < 18)%nat ->
  BayesianGaussianMixtureDistribution_fit self X e
  = (fitted <- external (call_BayesianGaussianMixture_fit 1 1000)
                        (BayesianGaussianMixture_fit 1 1000 X2) ;;
     ret (mk_BayesianGaussianMixtureDistribution (Some fitted))) e.
Proof.
  intros HX Hrows. unfold BayesianGaussianMixtureDistribution_fit.
  unfold bind at 1, lift at 1. rewrite HX.
  unfold bind at 1. now rewrite (fewer_than_18_rows_give_one X2 e Hrows).
Qed.

(** ** The number of mixture components: range and plateau *)

Lemma py_range_In (a b k : Z) : In k (py_range a b) <-> a <= k < b.
Proof.
  unfold py_range. rewrite in_map_iff. split.
  - intros (i & <- & Hi). apply in_seq in Hi. lia.
  - intros H. exists (Z.to_nat (k - a)). split; [lia|].
    apply in_seq. lia.
Qed.

Lemma selection_loop_count (X : ndarray) (cands : list Z) :
  forall (s s' : selection) (c : completion) (e e' : Env World),
    for_loop (selection_body X) cands s e = ((s', c), e') ->
    current_best_num_components s' = current_best_num_components s
    \/ In (current_best_num_components s') cands.
Proof.
  induction cands as [|i cands IH]; cbn; intros s s' c e e' H.
  - inversion H. now left.
  - unfold selection_body at 1, bind at 1 in H.
    destruct (score_candidate X i e) as [[c0|x] e1].
    + assert (Hrec : current_best_num_components (record_score i c0 s)
                     = current_best_num_components s
                     \/ current_best_num_components (record_score i c0 s) = i).
      { unfold record_score.
        destruct (gt c0 (current_best s)); cbn; auto. }
      destruct (3 <=? num_best_in_succession (record_score i c0 s)).
      * cbn in H. inversion H. subst.
        destruct Hrec as [Hrec|Hrec]; [now left | right; now left].
      * cbn in H. destruct (IH _ _ _ _ _ H) as [H'|H'].
        -- rewrite H'. destruct Hrec as [Hrec|Hrec];
             [now left | right; now left].
        -- right. now right.
    + inversion H. now left.
Qed.

(** X14.  The number of components the selection returns is 1 or one of the
    candidates: it is at least 1, and when it is not 1 it lies between 2 and
    the bound of the range, the bound excluded. *)
Theorem selected_count_is_one_or_a_candidate (X : ndarray) (k : Z)
    (e e' : Env World) :
  get_optimal_number_of_components X e = (Ok k, e') ->
  1 <= k
  /\ forall bound, candidate_bound X = Ok bound -> k = 1 \/ 2 <= k < bound.
Proof.
  unfold get_optimal_number_of_components, selection_try.
  destruct (candidate_bound X) as [bound|x] eqn:Hb.
  - destruct (for_loop (selection_body X) (py_range 2 bound) selection_init e)
      as [[s c] e1] eqn:Hloop.
    intros H.
    assert (Hk : k = current_best_num_components s).
    { destruct c as [| |[]]; now inversion H. }
    destruct (selection_loop_count _ _ _ _ Hloop) as [H'|H'].
    + cbn in H'. split; [lia|]. intros b _. left. congruence.
    + rewrite <- Hk in H'. apply py_range_In in H'.
      split; [lia|]. intros b Hb'. inversion Hb'. subst. now right.
  - intros H. assert (k = 1) as ->.
    { destruct x; now inversion H. }
    split; [lia|]. intros b Hb'. discriminate.
Qed.

(** The loop keeps the list of scored candidates split in two: up to the
    best one, and the run of candidates after it, of length at most 3. *)
Lemma selection_loop_plateau (X : ndarray) (cands : list Z) :
  forall (s s' : selection) (c : completion) (e e' : Env World)
         (pre post : list Z),
    current_best_num_components s = last pre 1 ->
    num_best_in_succession s = Z.of_nat (List.length post) ->
    (List.length post < 3)%nat ->
    for_loop (selection_body X) cands s e = ((s', c), e') ->
    (forall x, c <> Raised x) ->
    exists evaluated scores rest pre' post',
      cands = evaluated ++ rest
      /\ for_list (score_candidate X) evaluated e = (Ok scores, e')
      /\ pre ++ post ++ evaluated = pre' ++ post'
      /\ current_best_num_components s' = last pre' 1
      /\ (List.length post' <= 3)%nat
      /\ (rest = [] \/ List.length post' = 3%nat).
Proof.
  induction cands as [|i cands IH]; cbn;
    intros s s' c e e' pre post Hk Hn Hlt H Hc.
  - inversion H. subst. exists [], [], [], pre, post.
    rewrite !app_nil_r. repeat split; trivial; try lia. now left.
  - destruct (score_candidate X i e) as [[c0|x] e1] eqn:Hi.
    2:{ rewrite (selection_body_raises X i s e Hi) in H.
        inversion H. subst. now destruct (Hc x). }
    rewrite (selection_body_scores X i s e Hi) in H.
    unfold record_score in H.
    destruct (gt c0 (current_best s)); cbn [num_best_in_succession] in H.
    + change (3 <=? 0) with false in H. cbn in H.
      assert (Hk' : current_best_num_components (mk_selection c0 i 0)
                    = last ((pre ++ post) ++ [i]) 1)
        by (cbn; now rewrite last_last).
      destruct (IH _ _ _ _ _ ((pre ++ post) ++ [i]) [] Hk'
                   eq_refl ltac:(cbn; lia) H Hc)
        as (ev & sc & rest & pre' & post' & H1 & H2 & H3 & H4 & H5 & H6).
      exists (i :: ev), (c0 :: sc), rest, pre', post'. cbn.
      unfold bind, ret. rewrite Hi, H2. subst cands.
      repeat split; trivial.
      rewrite <- H3. cbn. now rewrite <- !app_assoc.
    + destruct (3 <=? num_best_in_succession s + 1) eqn:Hthree; cbn in H.
      * inversion H. subst. exists [i], [c0], cands, pre, (post ++ [i]). cbn.
        unfold bind, ret. rewrite Hi.
        apply Z.leb_le in Hthree.
        rewrite length_app. cbn. repeat split; trivial; try lia.
      * apply Z.leb_gt in Hthree.
        assert (Hn' : num_best_in_succession
                        (mk_selection (current_best s)
                           (current_best_num_components s)
                           (num_best_in_succession s + 1))
                      = Z.of_nat (List.length (post ++ [i])))
          by (cbn; rewrite length_app; cbn; lia).
        assert (Hlt' : (List.length (post ++ [i]) < 3)%nat)
          by (rewrite length_app; cbn; lia).
        destruct (IH (mk_selection (current_best s)
                                   (current_best_num_components s)
                                   (num_best_in_succession s + 1))
                     _ _ _ _ pre (post ++ [i]) Hk Hn' Hlt' H Hc)
          as (ev & sc & rest & pre' & post' & H1 & H2 & H3 & H4 & H5 & H6).
        exists (i :: ev), (c0 :: sc), rest, pre', post'. cbn.
        unfold bind, ret. rewrite Hi, H2. subst cands.
        repeat split; trivial.
        rewrite <- H3. now rewrite <- !app_assoc.
Qed.

(** X15.  The selection stops on a plateau.  When the [try] block ends
    without an exception, the candidates scored split into those up to and
    including the count returned (none, when 1 is returned) and at most three
    candidates scored after it; and candidates are left unscored only when
    exactly three were scored after it. *)
Theorem selection_stops_on_plateau (X : ndarray) (bound : Z) (s : selection)
    (c : completion) (e e' : Env World) :
  candidate_bound X = Ok bound ->
  selection_try X e = ((s, c), e') ->
  (forall x, c <> Raised x) ->
  exists evaluated scores rest pre post,
    py_range 2 bound = evaluated ++ rest
    /\ for_list (score_candidate X) evaluated e = (Ok scores, e')
    /\ evaluated = pre ++ post
    /\ get_optimal_number_of_components X e = (Ok (last pre 1), e')
    /\ (List.length post <= 3)%nat
    /\ (rest = [] \/ List.length post = 3%nat).
Proof.
  intros Hb Htry Hc.
  assert (Hget : get_optimal_number_of_components X e
                 = (Ok (current_best_num_components s), e')).
  { unfold get_optimal_number_of_components. rewrite Htry.
    destruct c as [| |x]; trivial. now destruct (Hc x). }
  unfold selection_try in Htry. rewrite Hb in Htry.
  destruct (selection_loop_plateau X _ selection_init e [] []
              eq_refl eq_refl ltac:(cbn; lia) Htry Hc)
    as (ev & sc & rest & pre & post & H1 & H2 & H3 & H4 & H5 & H6).
  exists ev, sc, rest, pre, post. cbn in H3.
  repeat split; trivial. now rewrite <- H4.
Qed.

(** X16.  Only a [ValueError] is absorbed by the selection: when the
    candidates before [i] were scored and clustering or scoring [i] raises
    any other exception, the selection raises it. *)
Theorem other_clustering_failures_propagate (X : ndarray) (bound : Z)
    (before after : list Z) (i : Z) (s1 : selection) (x : exn)
    (e e1 e2 : Env World) :
  candidate_bound X = Ok bound ->
  py_range 2 bound = before ++ i :: after ->
  for_loop (selection_body X) before selection_init e
  = ((s1, Exhausted), e1) ->
  score_candidate X i e1 = (Raise x, e2) ->
  (forall msg, x <> ValueError msg) ->
  get_optimal_number_of_components X e = (Raise x, e2).
Proof.
  intros Hb Hr Hbefore Hi Hx.
  unfold get_optimal_number_of_components, selection_try.
  rewrite Hb, Hr, for_loop_app, Hbefore. cbn.
  rewrite (selection_body_raises X i s1 e1 Hi).
  destruct x; trivial. now destruct (Hx msg).
Qed.

(** ** The declared shape-parameter names *)

Arguments PyStr.isspace : simpl never.

Lemma rstrip_idempotent (s : string) :
  PyStr.rstrip (PyStr.rstrip s) = PyStr.rstrip s.
Proof.
  induction s as [|a s IH]; cbn; trivial.
  destruct (PyStr.rstrip s) as [|b r] eqn:E.
  - destruct (PyStr.isspace a) eqn:Ha; cbn; trivial. now rewrite Ha.
  - cbn. cbn in IH. now rewrite IH.
Qed.

Lemma lstrip_rstrip_lstrip (s : string) :
  PyStr.lstrip (PyStr.rstrip (PyStr.lstrip s)) = PyStr.rstrip (PyStr.lstrip s).
Proof.
  induction s as [|a s IH]; cbn; trivial.
  destruct (PyStr.isspace a) eqn:Ha; trivial.
  cbn. destruct (PyStr.rstrip s) as [|b r]; cbn;
    rewrite ?Ha; cbn; rewrite ?Ha; reflexivity.
Qed.

Lemma strip_idempotent (s : string) : PyStr.strip (PyStr.strip s) = PyStr.strip s.
Proof.
  unfold PyStr.strip. now rewrite lstrip_rstrip_lstrip, rstrip_idempotent.
Qed.

Lemma split_nonempty (sep : ascii) (s : string) : PyStr.split sep s <> [].
Proof.
  destruct s as [|a s]; cbn; [discriminate|].
  destruct (Ascii.eqb a sep); [discriminate|].
  destruct (PyStr.split sep s); discriminate.
Qed.

(** X17.  The declared shape-parameter names of a family carry no leading
    or trailing whitespace, and there is none exactly when [shapes] is [None]
    or the empty string. *)
Theorem shape_names_are_stripped (d : family) :
  (forall n, In n (shape_names d) -> PyStr.strip n = n)
  /\ (shape_names d = [] <-> shapes d = None \/ shapes d = Some "").
Proof.
  unfold shape_names. split.
  - intros n. destruct (shapes d) as [[|a s]|]; cbn [In]; try tauto.
    rewrite in_map_iff. intros (x & <- & _). apply strip_idempotent.
  - destruct (shapes d) as [[|a s]|].
    + split; auto.
    + split.
      * intros H. apply map_eq_nil in H. now apply split_nonempty in H.
      * intros [H|H]; discriminate.
    + split; auto.
Qed.

End Coverage.

(** ** These theorems on concrete collaborators *)

Lemma seed_families_come_first_witness :
  firstn 5 (keys (@_CONTINUOUS_DISTRIBUTIONS Scenario.acceptable))
  = ["norm"; "laplace"; "t"; "uniform"; "rayleigh"].
Proof.
  apply (@seed_families_come_first Scenario.acceptable).
  cbn. repeat constructor; cbn; intuition discriminate.
Defined.

Lemma parameter_naming_outcomes_witness :
  @map_scipy_distribution_parameters_to_names Scenario.acceptable
    Scenario.poisson_stub [one]
  = Raise (IndexError "tuple index out of range").
Proof.
  apply (proj1 (proj2 (@parameter_naming_outcomes Scenario.acceptable
                         Scenario.poisson_stub [one]))).
  - left. reflexivity.
  - cbn. lia.
Defined.

Lemma only_fit_value_errors_are_skipped_witness :
  @evaluate_family Scenario.acceptable (Scenario.rows 4) Scenario.uniform_stub
    Scenario.start
  = (Ok None, mkEnv 0%nat [call_fit "uniform"]).
Proof.
  exact (proj1 (@only_fit_value_errors_are_skipped Scenario.acceptable
                  (Scenario.rows 4) Scenario.uniform_stub Scenario.start)
               "The data contains non-finite values." 0%nat eq_refl).
Defined.

Lemma search_failure_propagates_witness :
  @find_suitable_continuous_distribution Scenario.failing_estimate
    (Scenario.rows 4) default_divergence_threshold Scenario.start
  = (Raise (ValueError "Expected n_neighbors <= n_samples_fit"),
     mkEnv 2%nat
       [call_fit "norm"; call_rvs "norm";
        call_estimate_kl_divergence_continuous;
        call_fit "laplace"; call_rvs "laplace";
        call_estimate_kl_divergence_continuous]).
Proof.
  refine (@search_failure_propagates Scenario.failing_estimate
    (Scenario.rows 4) (Scenario.rows 4) default_divergence_threshold
    [Scenario.norm_stub]
    [Scenario.t_stub; Scenario.uniform_stub; Scenario.rayleigh_stub;
     Scenario.beta_stub]
    Scenario.laplace_stub
    [(Scenario.norm_stub, [Scenario.five; Scenario.two], Scenario.half)]
    _ Scenario.start
    (mkEnv 1%nat [call_fit "norm"; call_rvs "norm";
                  call_estimate_kl_divergence_continuous])
    _ eq_refl eq_refl eq_refl _ eq_refl).
  intros d' p' dv' [H|[]]. inversion H. reflexivity.
Defined.

Lemma search_returns_registered_family_witness :
  (Scenario.laplace_stub = @norm Scenario.acceptable
   \/ In Scenario.laplace_stub
         (values (@_CONTINUOUS_DISTRIBUTIONS Scenario.acceptable)))
  /\ contains "laplace" (@_CONTINUOUS_DISTRIBUTIONS Scenario.acceptable) = true.
Proof.
  apply (@search_returns_registered_family Scenario.acceptable
           (Scenario.rows 4) default_divergence_threshold
           Scenario.laplace_stub
           [("loc", Scenario.three); ("scale", Scenario.two)]
           Scenario.start
           (mkEnv 2%nat
              [call_fit "norm"; call_rvs "norm";
               call_estimate_kl_divergence_continuous;
               call_fit "laplace"; call_rvs "laplace";
               call_estimate_kl_divergence_continuous])).
  reflexivity.
Defined.

Lemma earliest_smallest_divergence_is_returned_witness :
  exists e1,
    @find_suitable_continuous_distribution Scenario.tied
      (Scenario.rows 4) default_divergence_threshold Scenario.start
    = (Ok (Scenario.laplace_stub,
           [("loc", Scenario.three); ("scale", Scenario.two)]), e1).
Proof.
  eexists.
  refine (@earliest_smallest_divergence_is_returned Scenario.tied
    (Scenario.rows 4) (Scenario.rows 4) default_divergence_threshold
    [(Scenario.norm_stub, [Scenario.five; Scenario.two], S754_nan)]
    [(Scenario.t_stub, [Scenario.three; Scenario.five; Scenario.two],
      Scenario.quarter);
     (Scenario.rayleigh_stub, [zero; Scenario.two], Scenario.half);
     (Scenario.beta_stub, [Scenario.two; Scenario.three; zero; one],
      Scenario.quarter)]
    Scenario.laplace_stub [Scenario.three; Scenario.two] Scenario.quarter
    Scenario.start _ eq_refl eq_refl _ eq_refl _ _).
  - intros d p dv H. cbn in H.
    repeat (destruct H as [H|H]; [inversion H; reflexivity|]).
    destruct H.
  - intros d p dv [H|[]]. inversion H. now right.
  - intros d p dv H. cbn in H.
    repeat (destruct H as [H|H]; [inversion H; reflexivity|]).
    destruct H.
Defined.

Lemma fitted_models_draw_witness :
  exists d,
    distribution
      (@mk_ScipyDistribution Scenario.acceptable (Some Scenario.laplace_stub)
         [("loc", Scenario.three); ("scale", Scenario.two)] false)
    = Some d
    /\ forall n e2,
        ScipyDistribution_draw_samples
          (@mk_ScipyDistribution Scenario.acceptable
             (Some Scenario.laplace_stub)
             [("loc", Scenario.three); ("scale", Scenario.two)] false) n e2
        = (samples <-
             rv_rvs d [] n [("loc", Scenario.three); ("scale", Scenario.two)] ;;
           lift (shape_into_2d samples)) e2.
Proof.
  apply (proj1 (@fitted_models_draw Scenario.acceptable) None []
           (Scenario.rows 4) Scenario.start
           (@mk_ScipyDistribution Scenario.acceptable
              (Some Scenario.laplace_stub)
              [("loc", Scenario.three); ("scale", Scenario.two)] false)
           (mkEnv 2%nat
              [call_fit "norm"; call_rvs "norm";
               call_estimate_kl_divergence_continuous;
               call_fit "laplace"; call_rvs "laplace";
               call_estimate_kl_divergence_continuous])).
  reflexivity.
Defined.

Lemma fitted_parameters_follow_family_witness :
  exists fitted,
    @ScipyDistribution_fit Scenario.acceptable
      (@ScipyDistribution_init Scenario.acceptable
         (Some Scenario.beta_stub) [])
      (Scenario.rows 4) Scenario.start
    = (Ok fitted, mkEnv 0%nat [call_fit "beta"])
    /\ keys (parameters fitted) = ["a"; "b"; "loc"; "scale"].
Proof.
  eexists. split; [reflexivity|].
  destruct (@fitted_parameters_follow_family Scenario.acceptable
              (Some Scenario.beta_stub) (Scenario.rows 4) _ Scenario.start
              (mkEnv 0%nat [call_fit "beta"]) eq_refl)
    as (d & Hd & _ & Hkeys).
  inversion Hd. subst d. apply Hkeys.
  cbn. repeat constructor; cbn; intuition discriminate.
Defined.

Lemma small_arrays_get_one_component_witness :
  @BayesianGaussianMixtureDistribution_fit Scenario.clusters
    (@BayesianGaussianMixtureDistribution_init Scenario.clusters)
    (Scenario.rows 3) Scenario.start
  = (Ok (@mk_BayesianGaussianMixtureDistribution Scenario.clusters (Some 1)),
     mkEnv 1%nat [call_BayesianGaussianMixture_fit 1 1000]).
Proof.
  refine (@small_arrays_get_one_component Scenario.clusters
            (@BayesianGaussianMixtureDistribution_init Scenario.clusters)
            (Scenario.rows 3) (Scenario.rows 3) Scenario.start eq_refl _).
  cbn. lia.
Defined.

Lemma selected_count_is_one_or_a_candidate_witness :
  1 <= 3
  /\ forall bound,
      @candidate_bound Scenario.clusters (Scenario.rows 50) = Ok bound ->
      3 = 1 \/ 2 <= 3 < bound.
Proof.
  apply (@selected_count_is_one_or_a_candidate Scenario.clusters
           (Scenario.rows 50) 3 Scenario.start
           (mkEnv 6%nat
              [call_KMeans_fit 2; call_silhouette_score;
               call_KMeans_fit 3; call_silhouette_score;
               call_KMeans_fit 4; call_silhouette_score])).
  reflexivity.
Defined.

Lemma selection_stops_on_plateau_witness :
  exists evaluated scores rest pre post,
    py_range 2 8 = evaluated ++ rest
    /\ for_list (@score_candidate Scenario.plateau (Scenario.rows 128))
         evaluated Scenario.start
       = (Ok scores,
          mkEnv 8%nat
            [call_KMeans_fit 2; call_silhouette_score;
             call_KMeans_fit 3; call_silhouette_score;
             call_KMeans_fit 4; call_silhouette_score;
             call_KMeans_fit 5; call_silhouette_score])
    /\ evaluated = pre ++ post
    /\ @get_optimal_number_of_components Scenario.plateau (Scenario.rows 128)
         Scenario.start
       = (Ok (last pre 1),
          mkEnv 8%nat
            [call_KMeans_fit 2; call_silhouette_score;
             call_KMeans_fit 3; call_silhouette_score;
             call_KMeans_fit 4; call_silhouette_score;
             call_KMeans_fit 5; call_silhouette_score])
    /\ (List.length post <= 3)%nat
    /\ (rest = [] \/ List.length post = 3%nat).
Proof.
  apply (@selection_stops_on_plateau Scenario.plateau (Scenario.rows 128) 8
           (mk_selection Scenario.half 2 3) Broke Scenario.start).
  - reflexivity.
  - reflexivity.
  - discriminate.
Defined.

Lemma other_clustering_failures_propagate_witness :
  @get_optimal_number_of_components Scenario.crashing_clusters
    (Scenario.rows 50) Scenario.start
  = (Raise (OtherError "MemoryError" ""),
     mkEnv 4%nat
       [call_KMeans_fit 2; call_silhouette_score;
        call_KMeans_fit 3; call_silhouette_score]).
Proof.
  refine (@other_clustering_failures_propagate Scenario.crashing_clusters
    (Scenario.rows 50) 5 [2] [4] 3
    (mk_selection Scenario.quarter 2 0) _ Scenario.start
    (mkEnv 2%nat [call_KMeans_fit 2; call_silhouette_score])
    _ eq_refl eq_refl eq_refl eq_refl _).
  discriminate.
Defined.
